(** * gameinformer-cover-export: [download_covers.py]

    A shallow embedding of the cover downloader and the properties of its
    URL normaliser, its de-duplication loop and its download loop.

    - Python [str] values are lists of 8-bit characters (code points 0..255);
      string literals are read through [list_ascii_of_string].
    - The functions of [urllib.parse], [os.path], [pathlib] and [re] that the
      script calls are embedded from CPython 3.11 ([Lib/urllib/parse.py],
      [Lib/posixpath.py]).  The one part that is left open is
      [_check_bracketed_host], the validation of a bracketed IPv6/IPvFuture
      host through the [ipaddress] module: it is a variable of the section.
    - [print] appends a line to the standard output; exceptions are values of
      [outcome]. *)

From Stdlib Require Import Ascii String.
From stdpp Require Import base list gmap strings pretty.

Abbreviation str := (list ascii).
Coercion list_ascii_of_string : string >-> list.

Open Scope string_scope.
Open Scope list_scope.

(** ** Exceptions *)

Inductive exn_class :=
  | ValueError | IndexError          (* raised by the modelled library code *)
  | HTTPError | RequestException | OSError   (* network and file system *)
  | KeyboardInterrupt.               (* derives from BaseException only *)

Record exn := Exn { exn_kind : exn_class; exn_msg : str }.

(** [isinstance(e, Exception)] *)
Definition is_Exception (e : exn) : bool :=
  match exn_kind e with
  | KeyboardInterrupt => false
  | _ => true
  end.

Inductive outcome (A : Type) :=
  | Return (a : A)
  | Raise (e : exn).
Arguments Return {A} a.
Arguments Raise {A} e.

Global Instance outcome_ret : MRet outcome := @Return.
Global Instance outcome_bind : MBind outcome := λ A B k m,
  match m with
  | Return a => k a
  | Raise e => Raise e
  end.

(** ** Python [str] and [list] operations *)

(** [s.startswith(p)] *)
Fixpoint startswith (s p : str) {struct p} : bool :=
  match p, s with
  | [], _ => true
  | _ :: _, [] => false
  | c :: p', d :: s' => if Ascii.eqb c d then startswith s' p' else false
  end.

(** [s.endswith(suf)] *)
Definition endswith (s suf : str) : bool :=
  Nat.leb (length suf) (length s)
  && bool_decide (drop (length s - length suf) s = suf).

(** [sub in s] *)
Fixpoint contains (s sub : str) {struct s} : bool :=
  startswith s sub
  || match s with
     | [] => false
     | _ :: s' => contains s' sub
     end.

(** [s.find(sub)]; [None] stands for Python's [-1]. *)
Fixpoint find (s sub : str) {struct s} : option nat :=
  if startswith s sub then Some 0
  else match s with
       | [] => None
       | _ :: s' => S <$> find s' sub
       end.

(** [s.find(sub, start)], for [start <= len(s)] *)
Definition find_from (s sub : str) (start : nat) : option nat :=
  (λ i, start + i) <$> find (drop start s) sub.

(** [s.rfind(sub)] *)
Fixpoint rfind (s sub : str) {struct s} : option nat :=
  match s with
  | [] => if startswith [] sub then Some 0 else None
  | _ :: s' =>
      match rfind s' sub with
      | Some i => Some (S i)
      | None => if startswith s sub then Some 0 else None
      end
  end.

(** [s.split(sep, maxsplit)] for a non-empty [sep] and [maxsplit >= 0] *)
Fixpoint splitn (maxsplit : nat) (s sep : str) : list str :=
  match maxsplit with
  | 0 => [s]
  | S n =>
      match find s sep with
      | None => [s]
      | Some i => take i s :: splitn n (drop (i + length sep) s) sep
      end
  end.

(** [s.split(sep)]: no bound on the number of splits.  A string of length
    [n] holds at most [n] occurrences of a non-empty separator. *)
Definition split (s sep : str) : list str := splitn (length s) s sep.

(** [s.partition(sep)] and [s.rpartition(sep)] *)
Definition partition (s sep : str) : str * str * str :=
  match find s sep with
  | Some i => (take i s, sep, drop (i + length sep) s)
  | None => (s, [], [])
  end.

Definition rpartition (s sep : str) : str * str * str :=
  match rfind s sep with
  | Some i => (take i s, sep, drop (i + length sep) s)
  | None => ([], [], s)
  end.

(** [c in chars] for a single character *)
Definition char_in (c : ascii) (chars : str) : bool :=
  existsb (Ascii.eqb c) chars.

(** [s.lstrip(chars)], [s.rstrip(chars)], [s.strip(chars)] *)
Fixpoint lstrip (s chars : str) {struct s} : str :=
  match s with
  | [] => []
  | c :: s' => if char_in c chars then lstrip s' chars else s
  end.

Definition rstrip (s chars : str) : str := rev (lstrip (rev s) chars).

Definition strip (s chars : str) : str := rstrip (lstrip s chars) chars.

(** [s.replace(b, "")] for a single character [b] *)
Fixpoint remove_char (s : str) (b : ascii) : str :=
  match s with
  | [] => []
  | c :: s' => if Ascii.eqb c b then remove_char s' b else c :: remove_char s' b
  end.

(** [c.lower()] and [s.lower()] on ASCII letters (the script and the library
    lower-case only characters that are ASCII). *)
Definition lower_char (c : ascii) : ascii :=
  let n := nat_of_ascii c in
  if Nat.leb 65 n && Nat.leb n 90 then ascii_of_nat (n + 32) else c.

Definition lower (s : str) : str := map lower_char s.

(** [c.isascii() and c.isalpha()] *)
Definition isascii_alpha (c : ascii) : bool :=
  let n := nat_of_ascii (lower_char c) in
  Nat.leb 97 n && Nat.leb n 122.

(** [sep.join(l)] *)
Fixpoint join (sep : str) (l : list str) : str :=
  match l with
  | [] => []
  | [x] => x
  | x :: l' => x ++ sep ++ join sep l'
  end.

(** [l[i]] for [i >= 0]: an index out of range raises [IndexError]. *)
Definition getitem {A} (l : list A) (i : nat) : outcome A :=
  match l !! i with
  | Some x => Return x
  | None => Raise (Exn IndexError "list index out of range")
  end.

(** [l[-1]] *)
Definition getitem_last {A} (l : list A) : outcome A :=
  match last l with
  | Some x => Return x
  | None => Raise (Exn IndexError "list index out of range")
  end.

(** [str(n)] for a non-negative [int] *)
Definition str_of_nat (n : nat) : str := pretty n.

(** ** [os.path] and [pathlib] (POSIX flavour) *)

(** [os.path.basename(p)] *)
Definition basename (p : str) : str :=
  let i := match rfind p "/" with Some i => i + 1 | None => 0 end in
  drop i p.

(** [os.path.join(a, b)] *)
Definition os_path_join (a b : str) : str :=
  if startswith b "/" then b
  else if bool_decide (a = []) || endswith a "/" then a ++ b
  else a ++ "/" ++ b.

(** [str(Path(a) / b)] for a relative directory name [a] without [/] and
    a name [b] without [/]: [pathlib] drops an empty or [.] component. *)
Definition pathlib_join (a b : str) : str :=
  if bool_decide (b = []) || bool_decide (b = ".") then a
  else a ++ "/" ++ b.

(** ** [re.sub(r'\.(jpg|jpeg|png|webp)$', '', s, flags=re.IGNORECASE)]

    [$] matches at the end of the string and also just before a newline
    that ends the string; the alternatives are compared ignoring case.
    At most one position of [s] matches, so the substitution removes at
    most one extension. *)

Definition image_extensions : list str :=
  [("jpg" : str); ("jpeg" : str); ("png" : str); ("webp" : str)].

(** [body] ends with a dot and the extension [ext], in any case.  Comparing
    through [lower] is exact: the letters of the extensions are ASCII, and
    no other character below 256 matches one of them when case is ignored. *)
Definition iendswith_ext (body ext : str) : bool :=
  endswith (lower body) ("." ++ ext).

Definition newline : ascii := "010"%char.

Definition re_sub_ext (s : str) : str :=
  let '(body, nl) :=
    if endswith s [newline] then (take (length s - 1) s, [newline])
    else (s, []) in
  match List.find (iendswith_ext body) image_extensions with
  | Some ext => take (length body - (1 + length ext)) body ++ nl
  | None => s
  end.

(** ** [urllib.parse] *)

Definition uses_relative : list str :=
  [("" : str); ("ftp" : str); ("http" : str); ("gopher" : str);
   ("nntp" : str); ("imap" : str); ("wais" : str); ("file" : str);
   ("https" : str); ("shttp" : str); ("mms" : str); ("prospero" : str);
   ("rtsp" : str); ("rtspu" : str); ("sftp" : str); ("svn" : str);
   ("svn+ssh" : str); ("ws" : str); ("wss" : str)].

Definition uses_netloc : list str :=
  [("" : str); ("ftp" : str); ("http" : str); ("gopher" : str);
   ("nntp" : str); ("telnet" : str); ("imap" : str); ("wais" : str);
   ("file" : str); ("mms" : str); ("https" : str); ("shttp" : str);
   ("snews" : str); ("prospero" : str); ("rtsp" : str); ("rtspu" : str);
   ("rsync" : str); ("svn" : str); ("svn+ssh" : str); ("sftp" : str);
   ("nfs" : str); ("git" : str); ("git+ssh" : str); ("ws" : str);
   ("wss" : str)].

Definition uses_params : list str :=
  [("" : str); ("ftp" : str); ("hdl" : str); ("prospero" : str);
   ("http" : str); ("imap" : str); ("https" : str); ("shttp" : str);
   ("rtsp" : str); ("rtspu" : str); ("sip" : str); ("sips" : str);
   ("mms" : str); ("sftp" : str); ("tel" : str)].

Definition scheme_chars : str :=
  "abcdefghijklmnopqrstuvwxyzABCDEFGHIJKLMNOPQRSTUVWXYZ0123456789+-.".

(** The characters [chr(0)] .. [chr(0x20)] *)
Definition WHATWG_C0_CONTROL_OR_SPACE : str := map ascii_of_nat (seq 0 33).

(** Tab, carriage return and line feed *)
Definition UNSAFE_URL_BYTES_TO_REMOVE : list ascii :=
  ["009"%char; "013"%char; newline].

(** Truth value of a [str]: the empty string is false. *)
Definition truthy (s : str) : bool :=
  match s with
  | [] => false
  | _ :: _ => true
  end.

Record ParseResult := mkParseResult {
  scheme : str;
  netloc : str;
  path : str;
  params : str;
  query : str;
  fragment : str
}.

(** [_splitparams(url)]; when [;] is absent Python's [find] gives [-1] and
    the slices are [url[:-1]] and [url[0:]]. *)
Definition splitparams (url : str) : str * str :=
  if contains url "/" then
    match find_from url ";" (default 0 (rfind url "/")) with
    | None => (url, [])
    | Some i => (take i url, drop (i + 1) url)
    end
  else
    match find url ";" with
    | Some i => (take i url, drop (i + 1) url)
    | None => (take (length url - 1) url, url)
    end.

(** [_splitnetloc(url, start)] *)
Definition splitnetloc (url : str) (start : nat) : str * str :=
  let delim :=
    foldl (λ delim c,
             match find_from url [c] start with
             | Some wdelim => Nat.min delim wdelim
             | None => delim
             end)
          (length url) ("/?#" : str) in
  (drop start (take delim url), drop delim url).

(** [urlunsplit((scheme, netloc, url, query, fragment))] *)
Definition urlunsplit (sch net url qry frag : str) : str :=
  let url :=
    if truthy net
       || (truthy sch && bool_decide (sch ∈ uses_netloc)
           && negb (bool_decide (take 2 url = "//")))
    then
      let url :=
        if truthy url && negb (bool_decide (take 1 url = "/"))
        then "/" ++ url else url in
      "//" ++ net ++ url
    else url in
  let url := if truthy sch then sch ++ ":" ++ url else url in
  let url := if truthy qry then url ++ "?" ++ qry else url in
  let url := if truthy frag then url ++ "#" ++ frag else url in
  url.

(** [urlunparse((scheme, netloc, url, params, query, fragment))] *)
Definition urlunparse (p : ParseResult) : str :=
  let url := if truthy (params p) then path p ++ ";" ++ params p else path p in
  urlunsplit (scheme p) (netloc p) url (query p) (fragment p).

(** A check of bracketed hosts that accepts every host, for the concrete
    runs below, none of which has a bracketed host. *)
Definition accept_bracketed_host : str → outcome unit := λ _, Return ().

Section download_covers.

(** [_check_bracketed_host(hostname)]: [Return ()] when the text between the
    brackets of a host is accepted by [ipaddress.ip_address] as an IPv6
    address (or is a well-formed IPvFuture address), [Raise] otherwise. *)
Variable check_bracketed_host : str → outcome unit.

(** [_check_bracketed_netloc(netloc)] *)
Definition check_bracketed_netloc (net : str) : outcome unit :=
  let hostname_and_port := (rpartition net "@").2 in
  let '(before_bracket, have_open_br, bracketed) :=
    partition hostname_and_port "[" in
  if truthy have_open_br then
    if truthy before_bracket then Raise (Exn ValueError "Invalid IPv6 URL")
    else
      let '(hostname, _, port) := partition bracketed "]" in
      if truthy port && negb (startswith port ":")
      then Raise (Exn ValueError "Invalid IPv6 URL")
      else check_bracketed_host hostname
  else
    let '(hostname, _, port) := partition hostname_and_port ":" in
    check_bracketed_host hostname.

(** [urlsplit(url, scheme)], returning the tuple
    [(scheme, netloc, path, query, fragment)].  [_checknetloc] is omitted:
    it raises only when the NFKC form of a non-ASCII netloc holds one of
    [/?#@:], which no code point below 256 produces. *)
Definition urlsplit (url sch : str)
    : outcome (str * str * str * str * str) :=
  let url := lstrip url WHATWG_C0_CONTROL_OR_SPACE in
  let sch := strip sch WHATWG_C0_CONTROL_OR_SPACE in
  let url := foldl remove_char url UNSAFE_URL_BYTES_TO_REMOVE in
  let sch := foldl remove_char sch UNSAFE_URL_BYTES_TO_REMOVE in
  let '(sch, url) :=
    match find url ":", url with
    | Some (S i), c :: _ =>
        if isascii_alpha c
           && forallb (λ c, char_in c scheme_chars) (take (S i) url)
        then (lower (take (S i) url), drop (S i + 1) url)
        else (sch, url)
    | _, _ => (sch, url)
    end in
  '(net, url) ←
    (if bool_decide (take 2 url = "//") then
       let '(net, url) := splitnetloc url 2 in
       if (contains net "[" && negb (contains net "]"))
          || (contains net "]" && negb (contains net "["))
       then Raise (Exn ValueError "Invalid IPv6 URL")
       else if contains net "[" && contains net "]"
       then _ ← check_bracketed_netloc net; Return (net, url)
       else Return (net, url)
     else Return ([], url));
  let '(url, frag) :=
    if contains url "#" then
      match splitn 1 url "#" with
      | [u; f] => (u, f)
      | _ => (url, [])
      end
    else (url, []) in
  let '(url, qry) :=
    if contains url "?" then
      match splitn 1 url "?" with
      | [u; q] => (u, q)
      | _ => (url, [])
      end
    else (url, []) in
  Return (sch, net, url, qry, frag).

(** [urlparse(url, scheme)] *)
Definition urlparse (url sch : str) : outcome ParseResult :=
  '(sch, net, url, qry, frag) ← urlsplit url sch;
  let '(url, prm) :=
    if bool_decide (sch ∈ uses_params) && contains url ";"
    then splitparams url else (url, []) in
  Return (mkParseResult sch net url prm qry frag).

(** The loop of [urljoin] over the path segments *)
Definition resolve_segments (segments : list str) : list str :=
  foldl (λ (resolved_path : list str) (seg : str),
           if bool_decide (seg = "..") then removelast resolved_path
           else if bool_decide (seg = ".") then resolved_path
           else resolved_path ++ [seg])
        [] segments.

(** [segments[1:-1] = filter(None, segments[1:-1])] *)
Definition filter_inner (segments : list str) : list str :=
  match segments with
  | first :: (_ :: _) as rest =>
      first :: List.filter truthy (removelast rest) ++ [List.last rest []]
  | _ => segments
  end.

(** [urljoin(base, url)] *)
Definition urljoin (base url : str) : outcome str :=
  if negb (truthy base) then Return url
  else if negb (truthy url) then Return base
  else
    b ← urlparse base [];
    u ← urlparse url (scheme b);
    if negb (bool_decide (scheme u = scheme b))
       || negb (bool_decide (scheme u ∈ uses_relative))
    then Return url
    else
      let usesnet := bool_decide (scheme u ∈ uses_netloc) in
      if usesnet && truthy (netloc u) then Return (urlunparse u)
      else
        let net := if usesnet then netloc b else netloc u in
        if negb (truthy (path u)) && negb (truthy (params u)) then
          let qry := if negb (truthy (query u)) then query b else query u in
          Return (urlunparse
                    (mkParseResult (scheme u) net (path b) (params b) qry
                                   (fragment u)))
        else
          let base_parts := split (path b) "/" in
          let base_parts :=
            if negb (bool_decide (List.last base_parts [] = []))
            then removelast base_parts else base_parts in
          let segments :=
            if bool_decide (take 1 (path u) = "/") then split (path u) "/"
            else filter_inner (base_parts ++ split (path u) "/") in
          let resolved_path := resolve_segments segments in
          let resolved_path :=
            if bool_decide (List.last segments [] = ".")
               || bool_decide (List.last segments [] = "..")
            then resolved_path ++ [[]] else resolved_path in
          let joined := join "/" resolved_path in
          Return (urlunparse
                    (mkParseResult (scheme u) net
                       (if truthy joined then joined else "/")
                       (params u) (query u) (fragment u))).

(** ** The script: [normalize_url]

    The result pairs the lines printed with the value returned or the
    exception raised. *)

Definition normalize_url (url : str) : list str * outcome str :=
  (* Handle relative URLs *)
  match (if negb (startswith url "http")
         then urljoin "https://gameinformer.com" url
         else Return url) with
  | Raise e => ([], Raise e)
  | Return url =>
  (* Parse the URL *)
  match urlparse url [] with
  | Raise e => ([], Raise e)
  | Return parsed =>
      if negb (contains (path parsed) "/sites/default/files/") then
        (["Warning: URL doesn't contain /sites/default/files/: " ++ url],
         Return url)
      else
        ([],
         (* Get everything after /sites/default/files/ *)
         path_after ← getitem (split (path parsed) "/sites/default/files/") 1;
         (* Remove any query parameters or fragments *)
         path_after ← getitem (split path_after "?") 0;
         path_after ← getitem (split path_after "#") 0;
         (* Remove the /styles/no_compression/public/ prefix if it exists *)
         let path_after :=
           if startswith path_after "styles/no_compression/public/"
           then drop (length ("styles/no_compression/public/" : str)) path_after
           else path_after in
         (* Ensure it ends with .jpg.webp (not just .webp) *)
         let path_after :=
           if endswith path_after ".jpg.webp" then path_after
           else if endswith path_after ".webp"
           then take (length path_after - 5) path_after ++ ".jpg.webp"
           else re_sub_ext path_after ++ ".jpg.webp" in
         (* Always construct with the /styles/no_compression/public/ prefix *)
         Return ("https://gameinformer.com/sites/default/files/styles/no_compression/public/"
                   ++ path_after))
  end
  end.

(** *** The parts of [normalize_url], named

    The statements below speak of the stages of [normalize_url]; each stage
    is the text of the function between the lines given, and
    [normalize_url_stages] shows that they compose to the function. *)

Definition marker : str := "/sites/default/files/".
Definition public_prefix : str := "styles/no_compression/public/".
Definition canonical_prefix : str :=
  "https://gameinformer.com/sites/default/files/styles/no_compression/public/".

(** Lines 21-22: the URL that is parsed *)
Definition resolve (url : str) : outcome str :=
  if negb (startswith url "http")
  then urljoin "https://gameinformer.com" url
  else Return url.

(** Lines 34-41: the part of the path after the marker, without query,
    fragment and [styles/no_compression/public/] prefix *)
Definition path_after_of (pth : str) : outcome str :=
  path_after ← getitem (split pth marker) 1;
  path_after ← getitem (split path_after "?") 0;
  path_after ← getitem (split path_after "#") 0;
  Return (if startswith path_after public_prefix
          then drop (length public_prefix) path_after
          else path_after).


(** Lines 44-52: the extension *)
Definition ensure_jpg_webp (path_after : str) : str :=
  if endswith path_after ".jpg.webp" then path_after
  else if endswith path_after ".webp"
  then take (length path_after - 5) path_after ++ ".jpg.webp"
  else re_sub_ext path_after ++ ".jpg.webp".

(** Lines 25-57: what [normalize_url] does with the resolved URL *)
Definition normalize_resolved (url : str) : list str * outcome str :=
  match urlparse url [] with
  | Raise e => ([], Raise e)
  | Return parsed =>
      if negb (contains (path parsed) marker) then
        (["Warning: URL doesn't contain /sites/default/files/: " ++ url],
         Return url)
      else
        ([], path_after ← path_after_of (path parsed);
             Return (canonical_prefix ++ ensure_jpg_webp path_after))
  end.

(** Lines 132-135 of [main]: normalise every raw URL, in order; an
    exception of [normalize_url] ends the loop. *)
Fixpoint normalize_all (raw_urls : list str) : list str * outcome (list str) :=
  match raw_urls with
  | [] => ([], Return [])
  | url :: rest =>
      match normalize_url url with
      | (out, Raise e) => (out, Raise e)
      | (out, Return normalized) =>
          let '(out', r) := normalize_all rest in
          (out ++ out', l ← r; Return (normalized :: l))
      end
  end.

(** Lines 138-143 of [main]: remove duplicates while preserving order.
    The state of the loop is the set [seen] and the list [unique_urls]. *)
Definition unique_step (st : gset str * list str) (url : str)
    : gset str * list str :=
  let '(seen, unique_urls) := st in
  if bool_decide (url ∉ seen)
  then ({[url]} ∪ seen, unique_urls ++ [url])
  else (seen, unique_urls).

Definition unique (normalized_urls : list str) : list str :=
  (foldl unique_step (∅, []) normalized_urls).2.

(** ** The world of the script: files, network, standard output *)

Record response := mkResponse {
  status_code : nat;
  reason : str;
  resp_url : str;
  content : str
}.

Inductive node :=
  | Dir
  | File (data : str).

(** [fs] maps the paths that exist to what they hold; [net] answers a GET
    from the list of the URLs requested before and the URL; [open_error]
    and [write_error] say when opening a path for writing, or writing to
    it, fails; [requested] records the GET requests made; [stdout] the
    lines printed. *)
Record World := mkWorld {
  fs : gmap str node;
  net : list str → str → outcome response;
  open_error : str → option exn;
  write_error : str → str → option exn;
  requested : list str;
  stdout : list str
}.

Definition M (A : Type) : Type := World → outcome A * World.

Global Instance M_ret : MRet M := λ A a w, (Return a, w).
Global Instance M_bind : MBind M := λ A B k m w,
  match m w with
  | (Return a, w') => k a w'
  | (Raise e, w') => (Raise e, w')
  end.

Definition lift {A} (o : outcome A) : M A := λ w, (o, w).

(** [try: body  except Exception as e: handler(e)] *)
Definition try_except {A} (body : M A) (handler : exn → M A) : M A := λ w,
  match body w with
  | (Raise e, w') => if is_Exception e then handler e w' else (Raise e, w')
  | r => r
  end.

Definition set_stdout (f : list str → list str) (w : World) : World :=
  mkWorld (fs w) (net w) (open_error w) (write_error w) (requested w)
          (f (stdout w)).

Definition set_fs (f : gmap str node → gmap str node) (w : World) : World :=
  mkWorld (f (fs w)) (net w) (open_error w) (write_error w) (requested w)
          (stdout w).

Definition set_requested (f : list str → list str) (w : World) : World :=
  mkWorld (fs w) (net w) (open_error w) (write_error w) (f (requested w))
          (stdout w).

(** [print(line)] *)
Definition print (line : str) : M unit := λ w,
  (Return (), set_stdout (λ out, out ++ [line]) w).

(** [os.path.exists(p)] and [Path.exists()] *)
Definition path_exists (p : str) : M bool := λ w,
  (Return (bool_decide (is_Some (fs w !! p))), w).

(** [requests.get(url, headers=headers, timeout=30)] *)
Definition requests_get (url : str) : M response := λ w,
  (net w (requested w) url, set_requested (λ l, l ++ [url]) w).

(** [response.raise_for_status()] *)
Definition raise_for_status (r : response) : M unit :=
  let msg kind :=
    str_of_nat (status_code r) ++ kind ++ reason r ++ " for url: "
      ++ resp_url r in
  if Nat.leb 400 (status_code r) && Nat.ltb (status_code r) 500
  then lift (Raise (Exn HTTPError (msg " Client Error: ")))
  else if Nat.leb 500 (status_code r) && Nat.ltb (status_code r) 600
  then lift (Raise (Exn HTTPError (msg " Server Error: ")))
  else mret ().

(** [with open(filepath, 'wb') as f: f.write(data)]: opening creates or
    truncates the file, then the data are written. *)
Definition write_file (filepath data : str) : M unit := λ w,
  match open_error w filepath with
  | Some e => (Raise e, w)
  | None =>
      match write_error w filepath data with
      | Some e => (Raise e, set_fs (insert filepath (File [])) w)
      | None => (Return (), set_fs (insert filepath (File data)) w)
      end
  end.

(** ** The script: [download_image] and the download loop of [main] *)

Definition download_image (url output_dir : str) : M bool :=
  (* Extract filename from URL *)
  parsed ← lift (urlparse url []);
  let filename := basename (path parsed) in
  filename ← (if negb (truthy filename)
               then lift (getitem_last (split url "/"))
               else mret filename);
  let filepath := os_path_join output_dir filename in
  (* Skip if already exists *)
  present ← path_exists filepath;
  if present : bool then
    print ("  Skipping " ++ filename ++ " (already exists)");;
    mret true
  else
    try_except
      (print ("  Downloading " ++ filename ++ "...");;
       response ← requests_get url;
       raise_for_status response;;
       write_file filepath (content response);;
       print ("  ✓ Downloaded " ++ filename);;
       mret true)
      (λ e,
         print ("  ✗ Error downloading " ++ filename ++ ": " ++ exn_msg e);;
         mret false).

(** One iteration of the loop at lines 157-168; the counters are
    [(success_count, skip_count)]. *)
Definition download_step (output_dir : str) (total i : nat) (url : str)
    (counts : nat * nat) : M (nat * nat) :=
  let '(success_count, skip_count) := counts in
  print ("[" ++ str_of_nat i ++ "/" ++ str_of_nat total ++ "] " ++ url);;
  parsed ← lift (urlparse url []);
  let filename := basename (path parsed) in
  let filepath := pathlib_join output_dir filename in
  present ← path_exists filepath;
  if present : bool then
    print ("  Skipping " ++ filename ++ " (already exists)");;
    mret (success_count, skip_count + 1)
  else
    ok ← download_image url output_dir;
    print ([] : str);;
    mret (if ok : bool then success_count + 1 else success_count, skip_count).

Fixpoint download_loop (output_dir : str) (total i : nat) (urls : list str)
    (counts : nat * nat) : M (nat * nat) :=
  match urls with
  | [] => mret counts
  | url :: rest =>
      counts ← download_step output_dir total i url counts;
      download_loop output_dir total (S i) rest counts
  end.

(** Lines 153-170 of [main] *)
Definition download_all (unique_urls : list str) : M unit :=
  let output_dir : str := "output" in
  print (["010"%char] ++ "Step 3: Downloading images to " ++ output_dir ++ "...");;
  counts ← download_loop output_dir (length unique_urls) 1 unique_urls (0, 0);
  print (["010"%char] ++ "Done! Downloaded " ++ str_of_nat counts.1
           ++ " new images, skipped " ++ str_of_nat counts.2
           ++ " existing images.").

(** Lines 93-96: the file name [download_image] derives from the URL *)
Definition filename_of (url : str) (parsed : ParseResult) : outcome str :=
  let filename := basename (path parsed) in
  if negb (truthy filename) then getitem_last (split url "/")
  else Return filename.

(** Lines 106-117: the body of the [try] of [download_image] *)
Definition fetch_and_write (url filename filepath : str) : M bool :=
  print ("  Downloading " ++ filename ++ "...");;
  response ← requests_get url;
  raise_for_status response;;
  write_file filepath (content response);;
  print ("  ✓ Downloaded " ++ filename);;
  mret true.

(** Lines 118-120: the handler *)
Definition report_error (filename : str) (e : exn) : M bool :=
  print ("  ✗ Error downloading " ++ filename ++ ": " ++ exn_msg e);;
  mret false.

(** Line 158: the progress line of the loop *)
Definition progress_line (total i : nat) (url : str) : str :=
  "[" ++ str_of_nat i ++ "/" ++ str_of_nat total ++ "] " ++ url.

(** Lines 102 and 164: the line that reports a skipped file *)
Definition skip_line (filename : str) : str :=
  "  Skipping " ++ filename ++ " (already exists)".

(** Line 119: the line that reports a failed download *)
Definition error_line (filename : str) (e : exn) : str :=
  "  ✗ Error downloading " ++ filename ++ ": " ++ exn_msg e.

(** [print(line)] seen as a change of the world *)
Definition printed (line : str) (w : World) : World :=
  set_stdout (λ out, out ++ [line]) w.

(** *** Worlds for the concrete runs *)

Definition cover1_url : str :=
  "https://gameinformer.com/sites/default/files/styles/no_compression/public/2023/06/cover1.jpg.webp".

(** The output directory exists and is empty; every request fails. *)
Definition offline_world : World :=
  mkWorld {[ ("output" : str) := Dir ]}
          (λ _ _, Raise (Exn RequestException "Connection refused"))
          (λ _, None) (λ _ _, None) [] [].

(** The output directory holds [cover1.jpg.webp]; every request would be
    answered with status 200. *)
Definition world_with_cover1 : World :=
  mkWorld {[ ("output" : str) := Dir;
             ("output/cover1.jpg.webp" : str) := File "RIFF" ]}
          (λ _ url, Return (mkResponse 200 "OK" url "RIFF"))
          (λ _, None) (λ _ _, None) [] [].

(** ** What the specification calls things *)

(** A canonical URL, from the data model: absolute, under the prefix
    [/sites/default/files/styles/no_compression/public/] of the fixed host,
    ending in [.jpg.webp]. *)
Definition canonical (u : str) : Prop :=
  ∃ rel : str, u = canonical_prefix ++ rel ++ ".jpg.webp".

(** A string without query, fragment or parameter delimiter and without
    the characters that [urlsplit] removes *)
Definition plain (s : str) : bool :=
  forallb (λ c, negb (char_in c ("?#;" ++ UNSAFE_URL_BYTES_TO_REMOVE))) s.

(** A string without query or fragment delimiter and without the
    characters that [urlsplit] removes; a [;] is allowed. *)
Definition clean (s : str) : bool :=
  forallb (λ c, negb (char_in c ("?#" ++ UNSAFE_URL_BYTES_TO_REMOVE))) s.

(** The marker without its first slash *)
Definition files_dir : str := "sites/default/files/".

(** The positions at which [sub] occurs in [s] *)
Fixpoint occurrences_from (i : nat) (s sub : str) {struct s} : list nat :=
  (if startswith s sub then [i] else [])
  ++ match s with
     | [] => []
     | _ :: s' => occurrences_from (S i) s' sub
     end.

Definition occurrences (s sub : str) : list nat := occurrences_from 0 s sub.


(** The first occurrences of the values of a list, in the order of the
    list: the element at index [i] is kept when it does not occur before
    index [i]. *)
Definition first_occurrences (l : list str) : list str :=
  (filter (λ p : nat * str, p.2 ∉ take p.1 l) (imap pair l)).*2.

(** ** Names for the statements about the rest of the script *)

(** The fragment and the query steps of [urlsplit]:
    [if c in url: url, rest = url.split(c, 1)] *)
Definition split_once (url c : str) : str * str :=
  if contains url c then
    match splitn 1 url c with
    | [u; f] => (u, f)
    | _ => (url, [])
    end
  else (url, []).

(** The world [w'] keeps what [w] holds: every path of [w] is there with
    the same content, the requests and the output of [w] come first, and
    the surroundings (network, errors of the file system) are the same. *)
Definition world_grows (w w' : World) : Prop :=
  (∀ p n, fs w !! p = Some n → fs w' !! p = Some n)
  ∧ requested w `prefix_of` requested w'
  ∧ stdout w `prefix_of` stdout w'
  ∧ net w' = net w
  ∧ open_error w' = open_error w
  ∧ write_error w' = write_error w.

(** A file name for which [os.path.join] and [Path /] give the same path:
    not empty and not [.] *)
Definition good_name (f : str) : bool :=
  truthy f && negb (bool_decide (f = ".")).

(** The URL parses and the last segment of its path is such a name. *)
Definition names_file (url : str) : bool :=
  match urlparse url [] with
  | Return parsed => good_name (basename (path parsed))
  | Raise _ => false
  end.

(** The file of a URL is in the output directory. *)
Definition file_present (output_dir : str) (w : World) (url : str) : Prop :=
  ∃ parsed, urlparse url [] = Return parsed
            ∧ is_Some (fs w !! pathlib_join output_dir (basename (path parsed))).

(** [400 <= status_code < 600] *)
Definition is_error_status (status : nat) : bool :=
  Nat.leb 400 status && Nat.ltb status 600.

(** The world after the request of [fetch_and_write] *)
Definition after_request (url filename : str) (w : World) : World :=
  set_requested (λ l, l ++ [url])
    (printed ("  Downloading " ++ filename ++ "...") w).

(** The output directory exists and is empty; every request is answered
    with status 200 and four bytes. *)
Definition online_world : World :=
  mkWorld {[ ("output" : str) := Dir ]}
          (λ _ url, Return (mkResponse 200 "OK" url "RIFF"))
          (λ _, None) (λ _ _, None) [] [].

(** As [online_world], but every request is answered with status 404. *)
Definition not_found_world : World :=
  mkWorld {[ ("output" : str) := Dir ]}
          (λ _ url, Return (mkResponse 404 "Not Found" url "<html>"))
          (λ _, None) (λ _ _, None) [] [].

(** As [online_world], but writing to a file fails (the disk is full). *)
Definition disk_full_world : World :=
  mkWorld {[ ("output" : str) := Dir ]}
          (λ _ url, Return (mkResponse 200 "OK" url "RIFF"))
          (λ _, None)
          (λ _ _, Some (Exn OSError "[Errno 28] No space left on device"))
          [] [].

(** As [online_world], but the user interrupts the first request. *)
Definition interrupted_world : World :=
  mkWorld {[ ("output" : str) := Dir ]}
          (λ _ _, Raise (Exn KeyboardInterrupt ""))
          (λ _, None) (λ _ _, None) [] [].

(** As [online_world], with the output directory also under the name that
    [os.path.join] gives it when the file name is empty. *)
Definition output_dir_world : World :=
  mkWorld {[ ("output" : str) := Dir; ("output/" : str) := Dir ]}
          (λ _ url, Return (mkResponse 200 "OK" url "RIFF"))
          (λ _, None) (λ _ _, None) [] [].

(** A second cover with the file name of [cover1_url] *)
Definition cover1_other_url : str :=
  "https://gameinformer.com/sites/default/files/styles/no_compression/public/2024/01/cover1.jpg.webp".

(** [cover1_url] and [cover1_other_url] as [urlparse] returns them *)
Definition cover1_parsed : ParseResult :=
  mkParseResult "https" "gameinformer.com"
    "/sites/default/files/styles/no_compression/public/2023/06/cover1.jpg.webp"
    [] [] [].

Definition cover1_other_parsed : ParseResult :=
  mkParseResult "https" "gameinformer.com"
    "/sites/default/files/styles/no_compression/public/2024/01/cover1.jpg.webp"
    [] [] [].

(** The world after [cover1.jpg.webp] has been fetched from [url] and
    written to the output directory *)
Definition cover1_written (url : str) (w : World) : World :=
  printed ("  ✓ Downloaded " ++ "cover1.jpg.webp")
    (set_fs (insert ("output/cover1.jpg.webp" : str) (File "RIFF"))
       (after_request url "cover1.jpg.webp" w)).

(** ** Facts about the string operations *)

Lemma bind_Return {A B} (a : A) (k : A → outcome B) : (Return a ≫= k) = k a.
Proof. done. Qed.

Lemma bind_Raise {A B} (e : exn) (k : A → outcome B) : (Raise e ≫= k) = Raise e.
Proof. done. Qed.

Lemma startswith_prefix (s p : str) : startswith s p = true ↔ p `prefix_of` s.
Proof.
  revert s. induction p as [|c p IH]; intros [|d s]; simpl.
  - split; [intros _; apply prefix_nil | done].
  - split; [intros _; apply prefix_nil | done].
  - split; [done | intros H; by apply prefix_nil_not in H].
  - destruct (Ascii.eqb_spec c d) as [->|Hne].
    + rewrite IH. split; [apply prefix_cons | apply prefix_cons_inv_2].
    + split; [done | intros H; by apply prefix_cons_inv_1 in H].
Qed.

Lemma startswith_app (p k : str) : startswith (p ++ k) p = true.
Proof. apply startswith_prefix. by exists k. Qed.

Lemma startswith_take (s p : str) n :
  startswith (take n s) p = true → startswith s p = true.
Proof.
  rewrite !startswith_prefix. intros H.
  etrans; [exact H | apply prefix_take].
Qed.

Lemma startswith_nil_l (p : str) : p ≠ [] → startswith [] p = false.
Proof. by destruct p. Qed.

Lemma endswith_suffix (s suf : str) : endswith s suf = true ↔ suf `suffix_of` s.
Proof.
  unfold endswith. rewrite andb_true_iff, Nat.leb_le, bool_decide_eq_true.
  split.
  - intros [_ H]. exists (take (length s - length suf) s).
    symmetry. etrans; [|apply (take_drop (length s - length suf))].
    by rewrite H.
  - intros [k ->]. rewrite length_app. split; [lia|].
    replace (length k + length suf - length suf) with (length k) by lia.
    apply drop_app_length.
Qed.

Lemma endswith_app (k suf : str) : endswith (k ++ suf) suf = true.
Proof. apply endswith_suffix. by exists k. Qed.


Lemma contains_infix (s sub : str) :
  contains s sub = true ↔ ∃ a b, s = a ++ sub ++ b.
Proof.
  induction s as [|c s IH]; simpl.
  - rewrite orb_false_r, startswith_prefix. split.
    + intros ->%prefix_nil_inv. by exists [], [].
    + intros (a & b & H). symmetry in H.
      apply app_eq_nil in H as [_ [-> _]%app_eq_nil]. apply prefix_nil.
  - rewrite orb_true_iff, startswith_prefix, IH. split.
    + intros [[k ->]|(a & b & ->)]; [by exists [], k | by exists (c :: a), b].
    + intros ([|d a] & b & H); simpl in H.
      * left. by exists b.
      * right. injection H as -> ->. by exists a, b.
Qed.

Lemma contains_false_infix (a s b sub : str) :
  contains (a ++ s ++ b) sub = false → contains s sub = false.
Proof.
  intros H. destruct (contains s sub) eqn:E; [|done].
  apply contains_infix in E as (x & y & ->).
  rewrite <- H. symmetry. apply contains_infix.
  exists (a ++ x), (y ++ b). by rewrite <- !app_assoc.
Qed.

Lemma find_None (s sub : str) : find s sub = None ↔ contains s sub = false.
Proof.
  induction s as [|c s IH]; simpl.
  - by destruct (startswith [] sub).
  - destruct (startswith (c :: s) sub); simpl; [done|].
    rewrite <- IH. by destruct (find s sub).
Qed.

Lemma find_Some_split (s sub : str) i :
  find s sub = Some i → s = take i s ++ sub ++ drop (i + length sub) s.
Proof.
  revert i. induction s as [|c s IH]; intros i; simpl.
  - destruct (startswith [] sub) eqn:E; [|done]. intros [= <-].
    apply startswith_prefix, prefix_nil_inv in E as ->. done.
  - destruct (startswith (c :: s) sub) eqn:E.
    + intros [= <-]. apply startswith_prefix in E as [k E].
      simpl. rewrite E. by rewrite drop_app_length.
    + destruct (find s sub) as [j|] eqn:Ej; [|done]. intros [= <-].
      simpl. f_equal. by apply IH.
Qed.

Lemma find_Some_before (s sub : str) i :
  sub ≠ [] → find s sub = Some i → contains (take i s) sub = false.
Proof.
  intros Hsub. revert i. induction s as [|c s IH]; intros i; simpl.
  - rewrite (startswith_nil_l sub Hsub). done.
  - destruct (startswith (c :: s) sub) eqn:E.
    + intros [= <-]. simpl. by rewrite (startswith_nil_l sub Hsub).
    + destruct (find s sub) as [j|] eqn:Ej; [|done]. intros [= <-].
      simpl. rewrite (IH j eq_refl), orb_false_r.
      destruct (startswith (c :: take j s) sub) eqn:E'; [|done].
      apply (startswith_take (c :: s) sub (S j)) in E'. congruence.
Qed.

Lemma find_Some_le (s sub : str) i :
  find s sub = Some i → (i + length sub ≤ length s)%nat.
Proof.
  revert i. induction s as [|c s IH]; intros i; simpl.
  - destruct (startswith [] sub) eqn:E; [|done]. intros [= <-].
    apply startswith_prefix, prefix_nil_inv in E as ->. done.
  - destruct (startswith (c :: s) sub) eqn:E.
    + intros [= <-]. apply startswith_prefix, prefix_length in E. simpl in *. lia.
    + destruct (find s sub) as [j|] eqn:Ej; [|done]. intros [= <-].
      specialize (IH j eq_refl). simpl. lia.
Qed.

(** [split] has enough fuel: it satisfies the equation of Python's loop. *)
Lemma splitn_enough (sep : str) n m (s : str) :
  sep ≠ [] → (length s ≤ n)%nat → (length s ≤ m)%nat →
  splitn n s sep = splitn m s sep.
Proof.
  intros Hsep. revert m s. induction n as [|n IH]; intros m s Hn Hm.
  - destruct s; [|simpl in Hn; lia]. destruct m; [done|]. simpl.
    by rewrite (startswith_nil_l sep Hsep).
  - destruct m as [|m].
    + destruct s; [|simpl in Hm; lia]. simpl.
      by rewrite (startswith_nil_l sep Hsep).
    + simpl. destruct (find s sep) as [i|] eqn:E; [|done]. f_equal.
      apply find_Some_le in E.
      assert (0 < length sep)%nat by (destruct sep; [done | simpl; lia]).
      apply IH; rewrite length_drop; lia.
Qed.

Lemma split_unfold (s sep : str) :
  sep ≠ [] →
  split s sep =
    match find s sep with
    | None => [s]
    | Some i => take i s :: split (drop (i + length sep) s) sep
    end.
Proof.
  intros Hsep. unfold split. destruct s as [|c s].
  - simpl. by rewrite (startswith_nil_l sep Hsep).
  - change (length (c :: s)) with (S (length s)).
    cbn [splitn]. destruct (find (c :: s) sep) as [i|] eqn:E; [|done].
    f_equal. apply find_Some_le in E.
    assert (0 < length sep)%nat by (destruct sep; [done | simpl; lia]).
    apply splitn_enough; [done | |done].
    rewrite length_drop. simpl in *. lia.
Qed.

Lemma split_no_sep (s sep : str) :
  sep ≠ [] → contains s sep = false → split s sep = [s].
Proof.
  intros Hsep H. rewrite split_unfold by done.
  apply find_None in H. by rewrite H.
Qed.

(** The first piece of a split is a prefix of the string. *)
Lemma split_first (s sep : str) :
  ∃ x, getitem (split s sep) 0 = Return x ∧ x `prefix_of` s.
Proof.
  unfold split. destruct (length s); simpl.
  - by exists s.
  - destruct (find s sep); [|by exists s].
    eexists; split; [done | apply prefix_take].
Qed.

(** The second piece of a split lies between the first two occurrences of
    the separator: it is part of the string and holds no separator. *)
Lemma split_second (s sep : str) :
  sep ≠ [] → contains s sep = true →
  ∃ x, getitem (split s sep) 1 = Return x
       ∧ contains x sep = false
       ∧ ∃ a b, s = a ++ x ++ b.
Proof.
  intros Hsep H. rewrite split_unfold by done.
  destruct (find s sep) as [i|] eqn:E.
  2:{ apply find_None in E. congruence. }
  pose proof (find_Some_split _ _ _ E) as Hs.
  set (rest := drop (i + length sep) s) in *.
  rewrite (split_unfold rest) by done.
  destruct (find rest sep) as [j|] eqn:Ej.
  - exists (take j rest). split; [done|]. split.
    + by apply find_Some_before.
    + exists (take i s ++ sep), (drop j rest).
      rewrite take_drop, <- app_assoc. exact Hs.
  - exists rest. split; [done|]. split.
    + by apply find_None.
    + exists (take i s ++ sep), []. by rewrite app_nil_r, <- app_assoc.
Qed.


Lemma contains_false_prefix (x s sub : str) :
  x `prefix_of` s → contains s sub = false → contains x sub = false.
Proof. intros [k ->]. apply (contains_false_infix [] x k). Qed.

Lemma contains_false_drop (s sub : str) n :
  contains s sub = false → contains (drop n s) sub = false.
Proof.
  intros H. apply (contains_false_infix (take n s) _ []).
  by rewrite app_nil_r, take_drop.
Qed.

Lemma contains_false_take (s sub : str) n :
  contains s sub = false → contains (take n s) sub = false.
Proof. apply contains_false_prefix, prefix_take. Qed.

Lemma char_in_elem_of (c : ascii) (s : str) : char_in c s = true ↔ c ∈ s.
Proof.
  unfold char_in. rewrite existsb_exists. split.
  - intros (d & Hd & ->%Ascii.eqb_eq). by apply list_elem_of_In.
  - intros H. exists c. split; [by apply list_elem_of_In | apply Ascii.eqb_refl].
Qed.

(** An occurrence of [sub] in [a ++ t] lies in [a], or in [t], or runs over
    the first character of [t]. *)
Lemma contains_app_cases (a t sub : str) :
  contains (a ++ t) sub = true →
  contains a sub = true ∨ contains t sub = true
  ∨ ∃ c t', t = c :: t' ∧ char_in c sub = true.
Proof.
  rewrite !contains_infix. intros (x & y & H).
  apply app_eq_inv in H as [(k & -> & H)|(k & -> & ->)].
  - apply app_eq_inv in H as [(k' & -> & ->)|(k' & -> & ->)].
    + destruct k' as [|c k'].
      * left. exists x, []. by rewrite !app_nil_r.
      * right; right. exists c, (k' ++ y). split; [done|].
        apply char_in_elem_of. set_solver.
    + left. by exists x, k'.
  - right; left. by exists k, y.
Qed.

(** ** The extension step *)

Lemma ensure_jpg_webp_suffix (pa : str) :
  endswith (ensure_jpg_webp pa) ".jpg.webp" = true.
Proof.
  unfold ensure_jpg_webp. destruct (endswith pa ".jpg.webp") eqn:E; [done|].
  destruct (endswith pa ".webp"); apply endswith_app.
Qed.

(** What the substitution leaves is a prefix of the string, followed by the
    final newline when the extension stood before it. *)
Lemma re_sub_ext_shape (s : str) :
  ∃ k (nl : str), re_sub_ext s = take k s ++ nl ∧ (nl = [] ∨ nl = [newline]).
Proof.
  unfold re_sub_ext. destruct (endswith s [newline]).
  - destruct (List.find _ _) as [ext|].
    + eexists _, [newline]. rewrite take_take. eauto.
    + exists (length s), []. rewrite take_ge, app_nil_r by done. eauto.
  - destruct (List.find _ _) as [ext|].
    + eexists _, []. eauto.
    + exists (length s), []. rewrite take_ge, app_nil_r by done. eauto.
Qed.

Lemma ensure_jpg_webp_no_marker (pa : str) :
  contains pa marker = false → contains (ensure_jpg_webp pa) marker = false.
Proof.
  intros H. unfold ensure_jpg_webp.
  destruct (endswith pa ".jpg.webp"); [done|].
  destruct (endswith pa ".webp").
  - destruct (contains (_ ++ _) marker) eqn:E; [|done].
    apply contains_app_cases in E as [E|[E|(c & t' & [= <- <-] & E)]];
      [|done..].
    by rewrite contains_false_take in E.
  - destruct (re_sub_ext_shape pa) as (k & nl & -> & Hnl).
    rewrite <- app_assoc.
    destruct (contains (_ ++ _) marker) eqn:E; [|done].
    apply contains_app_cases in E as [E|[E|(c & t' & Ht & E)]].
    + by rewrite contains_false_take in E.
    + by destruct Hnl as [-> | ->].
    + destruct Hnl as [-> | ->]; injection Ht as <- <-; done.
Qed.

(** ** The path after the marker *)

Lemma path_after_of_no_marker (pth : str) :
  contains pth marker = true →
  ∃ pa, path_after_of pth = Return pa ∧ contains pa marker = false.
Proof.
  intros H. unfold path_after_of.
  destruct (split_second pth marker) as (x & -> & Hx & _); [done..|].
  rewrite bind_Return.
  destruct (split_first x "?") as (y & -> & Hy). rewrite bind_Return.
  destruct (split_first y "#") as (z & -> & Hz). rewrite bind_Return.
  eexists. split; [done|].
  assert (contains z marker = false) as Hzm
    by eauto using contains_false_prefix.
  destruct (startswith z public_prefix); [|done].
  by apply contains_false_drop.
Qed.

Lemma normalize_url_stages (url : str) :
  normalize_url url =
    match resolve url with
    | Raise e => ([], Raise e)
    | Return abs => normalize_resolved abs
    end.
Proof.
  unfold normalize_url, resolve, normalize_resolved, path_after_of.
  destruct (if negb (startswith url "http") then _ else _) as [abs|e]; [|done].
  destruct (urlparse abs []) as [parsed|e]; [|done].
  destruct (negb (contains (path parsed) _)); [done|].
  f_equal.
  destruct (getitem (split (path parsed) _) 1) as [x|]; [|done].
  rewrite !bind_Return. destruct (getitem (split x "?") 0) as [y|]; [|done].
  rewrite !bind_Return. destruct (getitem (split y "#") 0) as [z|]; done.
Qed.


(** ** Occurrences of the prefix in a normalised URL *)






(** ** The claims about [normalize_url] *)


(** C3.  The two scenarios of the specification: a relative href and an
    href that already carries the prefix. *)
Theorem C3_scenarios :
  normalize_url "/sites/default/files/2023/06/cover1.png"
  = ([], Return ("https://gameinformer.com/sites/default/files/styles/no_compression/public/2023/06/cover1.jpg.webp" : str))
  ∧ normalize_url "https://gameinformer.com/sites/default/files/styles/no_compression/public/2023/06/cover2.webp"
    = ([], Return ("https://gameinformer.com/sites/default/files/styles/no_compression/public/2023/06/cover2.jpg.webp" : str))
  ∧ occurrences
      ("https://gameinformer.com/sites/default/files/styles/no_compression/public/2023/06/cover2.jpg.webp" : str)
      "/sites/default/files/styles/no_compression/public/" = [24].
Proof. split_and!; by vm_compute. Qed.

(** C5 (as amended).  For every raw URL whose resolved form parses and whose
    path does not contain the marker, [normalize_url] prints one warning and
    returns the resolved URL unchanged, which is the raw URL itself when it
    starts with [http]; it does not raise. *)
Theorem C5_no_marker_pass_through (url abs : str) (parsed : ParseResult) :
  resolve url = Return abs →
  urlparse abs [] = Return parsed →
  contains (path parsed) marker = false →
  normalize_url url
  = (["Warning: URL doesn't contain /sites/default/files/: " ++ abs],
     Return abs)
  ∧ (startswith url "http" = true → abs = url).
Proof.
  intros Hres Hparse Hm. split.
  - rewrite normalize_url_stages, Hres. unfold normalize_resolved.
    by rewrite Hparse, Hm.
  - intros Hhttp. unfold resolve in Hres. rewrite Hhttp in Hres.
    by injection Hres.
Qed.

(** C9.  Whether the raw URL is resolved against the base host depends on
    nothing but its first four characters: an input that starts with
    [http] is parsed as it is, every other input goes through
    [urljoin('https://gameinformer.com', url)] before the marker check. *)
Theorem C9_http_prefix_alone (url : str) :
  normalize_url url
  = (if startswith url "http" then normalize_resolved url
     else match urljoin "https://gameinformer.com" url with
          | Return abs => normalize_resolved abs
          | Raise e => ([], Raise e)
          end)
  ∧ normalize_url "httpx-foo"
    = (["Warning: URL doesn't contain /sites/default/files/: httpx-foo" : str],
       Return ("httpx-foo" : str))
  ∧ urljoin "https://gameinformer.com" "httpx-foo"
    = Return ("https://gameinformer.com/httpx-foo" : str)
  ∧ resolve "//cdn.example.com/sites/default/files/a.png"
    = Return ("https://cdn.example.com/sites/default/files/a.png" : str)
  ∧ normalize_url "//cdn.example.com/sites/default/files/a.png"
    = ([], Return ("https://gameinformer.com/sites/default/files/styles/no_compression/public/a.jpg.webp" : str))
  ∧ resolve "ftp://mirror.example.org/sites/default/files/a.png"
    = Return ("ftp://mirror.example.org/sites/default/files/a.png" : str)
  ∧ normalize_url "ftp://mirror.example.org/sites/default/files/a.png"
    = ([], Return ("https://gameinformer.com/sites/default/files/styles/no_compression/public/a.jpg.webp" : str)).
Proof.
  split; [|split_and!; by vm_compute].
  rewrite normalize_url_stages. unfold resolve.
  by destruct (startswith url "http").
Qed.


(** ** The extension step, ignoring case *)

Lemma endswith_rev (s suf : str) :
  endswith s suf = startswith (rev s) (rev suf).
Proof.
  apply eq_true_iff_eq.
  rewrite endswith_suffix, startswith_prefix, !rev_alt.
  apply suffix_prefix_reverse.
Qed.

Lemma lower_app (a b : str) : lower (a ++ b) = lower a ++ lower b.
Proof. apply map_app. Qed.

Lemma endswith_lower (s suf : str) :
  endswith s suf = true → endswith (lower s) (lower suf) = true.
Proof.
  rewrite !endswith_suffix. intros [k ->]. exists (lower k). apply lower_app.
Qed.

(** Deciding [endswith (x ++ known) suf] for a known end and suffix *)
Ltac endswith_known :=
  rewrite ?endswith_rev, ?rev_app_distr; reflexivity.

Lemma lower_ext_cases (ext : str) :
  lower ext ∈ image_extensions →
  lower ext = "jpg" ∨ lower ext = "jpeg" ∨ lower ext = "png"
  ∨ lower ext = "webp".
Proof.
  unfold image_extensions. rewrite !elem_of_cons, elem_of_nil. tauto.
Qed.

(** The substitution strips a final extension written in any case. *)
Lemma re_sub_ext_strips (stem ext : str) :
  lower ext ∈ image_extensions → re_sub_ext (stem ++ "." ++ ext) = stem.
Proof.
  intros Hext. unfold re_sub_ext.
  assert (lower (stem ++ "." ++ ext) = lower stem ++ "." ++ lower ext) as Hlow
    by (by rewrite !lower_app).
  assert (length (lower ext) = length ext) as Hlen by apply length_map.
  assert (endswith (stem ++ "." ++ ext) [newline] = false) as ->.
  { destruct (endswith _ [newline]) eqn:E; [|done].
    apply endswith_lower in E. rewrite Hlow in E. rewrite <- E.
    destruct (lower_ext_cases ext Hext) as [->|[->|[->| ->]]];
      endswith_known. }
  unfold image_extensions, iendswith_ext. cbn [List.find]. rewrite Hlow.
  assert (∀ n, length ext = n →
    take (length (stem ++ "." ++ ext) - (1 + n)) (stem ++ "." ++ ext) ++ []
    = stem) as Htake.
  { intros n Hn. rewrite app_nil_r, !length_app, Hn.
    change (length ("." : str)) with 1.
    apply take_app_length'. lia. }
  destruct (lower_ext_cases ext Hext) as [E|[E|[E|E]]];
    rewrite E in Hlen |- *.
  - replace (endswith (lower stem ++ "." ++ "jpg") ("." ++ "jpg"))
      with true by (symmetry; endswith_known).
    by apply Htake.
  - replace (endswith (lower stem ++ "." ++ "jpeg") ("." ++ "jpg"))
      with false by (symmetry; endswith_known).
    replace (endswith (lower stem ++ "." ++ "jpeg") ("." ++ "jpeg"))
      with true by (symmetry; endswith_known).
    by apply Htake.
  - replace (endswith (lower stem ++ "." ++ "png") ("." ++ "jpg"))
      with false by (symmetry; endswith_known).
    replace (endswith (lower stem ++ "." ++ "png") ("." ++ "jpeg"))
      with false by (symmetry; endswith_known).
    replace (endswith (lower stem ++ "." ++ "png") ("." ++ "png"))
      with true by (symmetry; endswith_known).
    by apply Htake.
  - replace (endswith (lower stem ++ "." ++ "webp") ("." ++ "jpg"))
      with false by (symmetry; endswith_known).
    replace (endswith (lower stem ++ "." ++ "webp") ("." ++ "jpeg"))
      with false by (symmetry; endswith_known).
    replace (endswith (lower stem ++ "." ++ "webp") ("." ++ "png"))
      with false by (symmetry; endswith_known).
    replace (endswith (lower stem ++ "." ++ "webp") ("." ++ "webp"))
      with true by (symmetry; endswith_known).
    by apply Htake.
Qed.


Lemma endswith_same_length (stem v suf : str) :
  length v = length suf → endswith (stem ++ v) suf = true → v = suf.
Proof.
  intros Hlen [k E]%endswith_suffix. by apply app_inj_2 in E as [_ ->].
Qed.

Lemma ensure_jpg_webp_ext (stem ext : str) :
  lower ext ∈ image_extensions →
  endswith (stem ++ "." ++ ext) ".jpg.webp" = false →
  ensure_jpg_webp (stem ++ "." ++ ext) = stem ++ ".jpg.webp".
Proof.
  intros Hext Hno. unfold ensure_jpg_webp. rewrite Hno.
  destruct (endswith _ ".webp") eqn:E.
  - f_equal. apply (endswith_same_length stem ("." ++ ext) ".webp") in E as E'.
    + rewrite E'. apply take_app_length'. rewrite length_app.
      change (length (".webp" : str)) with 5. lia.
    + apply endswith_lower in E. rewrite !lower_app in E.
      assert (length (lower ext) = length ext) as Hlen by apply length_map.
      destruct (lower_ext_cases ext Hext) as [H|[H|[H|H]]];
        rewrite H in E, Hlen; cbn in Hlen |- *; [exfalso..|by rewrite <- Hlen];
        revert E; rewrite endswith_rev, !rev_app_distr; done.
  - by rewrite re_sub_ext_strips.
Qed.


(** The final extension of the path after the marker is recognised in any
    case. *)
Lemma normalize_url_extension
    (url abs : str) (parsed : ParseResult) (stem ext : str) :
  resolve url = Return abs →
  urlparse abs [] = Return parsed →
  contains (path parsed) marker = true →
  path_after_of (path parsed) = Return (stem ++ "." ++ ext) →
  lower ext ∈ image_extensions →
  endswith (stem ++ "." ++ ext) ".jpg.webp" = false →
  normalize_url url = ([], Return (canonical_prefix ++ stem ++ ".jpg.webp")).
Proof.
  intros Hres Hparse Hm Hpa Hext Hno.
  rewrite normalize_url_stages, Hres. unfold normalize_resolved.
  rewrite Hparse, Hm, Hpa, bind_Return. cbn [negb].
  by rewrite ensure_jpg_webp_ext.
Qed.

(** The path after the marker decides the result through
    [ensure_jpg_webp]. *)
Lemma normalize_url_path_after
    (url abs : str) (parsed : ParseResult) (pa : str) :
  resolve url = Return abs →
  urlparse abs [] = Return parsed →
  contains (path parsed) marker = true →
  path_after_of (path parsed) = Return pa →
  normalize_url url = ([], Return (canonical_prefix ++ ensure_jpg_webp pa)).
Proof.
  intros Hres Hparse Hm Hpa.
  rewrite normalize_url_stages, Hres. unfold normalize_resolved.
  by rewrite Hparse, Hm, Hpa, bind_Return.
Qed.


(** ** Parsing a plain URL of the fixed host *)

Lemma plain_not_elem (s : str) (c : ascii) :
  plain s = true →
  char_in c ("?#;" ++ UNSAFE_URL_BYTES_TO_REMOVE) = true → c ∉ s.
Proof.
  unfold plain. rewrite forallb_forall. intros H Hc Hin.
  apply list_elem_of_In, H in Hin. by rewrite Hc in Hin.
Qed.

Lemma remove_char_id (s : str) (c : ascii) : c ∉ s → remove_char s c = s.
Proof.
  induction s as [|d s IH]; [done|]. intros [Hd Hs]%not_elem_of_cons. simpl.
  destruct (Ascii.eqb_spec d c) as [->|_]; [done|]. by rewrite IH.
Qed.

Lemma contains_char_false (s : str) (c : ascii) :
  c ∉ s → contains s [c] = false.
Proof.
  induction s as [|d s IH]; [done|]. intros [Hd Hs]%not_elem_of_cons. simpl.
  destruct (Ascii.eqb_spec c d) as [->|_]; [done|]. by apply IH.
Qed.

Lemma find_char_app (a t : str) (c : ascii) :
  c ∉ a → find (a ++ t) [c] = (λ i, length a + i) <$> find t [c].
Proof.
  induction a as [|d a IH]; simpl.
  - intros _. by destruct (find t [c]).
  - intros [Hd Ha]%not_elem_of_cons.
    destruct (Ascii.eqb_spec c d) as [->|_]; [done|].
    rewrite IH by done. by destruct (find t [c]).
Qed.

Lemma find_char_head (t : str) (c : ascii) : find (c :: t) [c] = Some 0.
Proof. simpl. by rewrite Ascii.eqb_refl. Qed.

Lemma find_char_cons (t : str) (c d : ascii) :
  c ≠ d → find (d :: t) [c] = S <$> find t [c].
Proof. intros H. simpl. by destruct (Ascii.eqb_spec c d). Qed.

(** The host of a URL ends at its first slash. *)
Lemma splitnetloc_host (host rest : str) :
  "/"%char ∉ host → "?"%char ∉ host → "#"%char ∉ host →
  splitnetloc ("//" ++ host ++ "/" ++ rest) 2 = (host, "/" ++ rest).
Proof.
  intros H1 H2 H3. unfold splitnetloc, find_from.
  change (drop 2 ("//" ++ host ++ "/" ++ rest)) with (host ++ "/"%char :: rest).
  change ("/?#" : str) with ["/"; "?"; "#"]%char. cbn [foldl].
  rewrite (find_char_app host _ "/"), (find_char_app host _ "?"),
    (find_char_app host _ "#") by done.
  rewrite find_char_head.
  rewrite (find_char_cons rest "?" "/"), (find_char_cons rest "#" "/")
    by discriminate.
  assert (length ("//" ++ host ++ "/" ++ rest)
          = 2 + length host + 1 + length rest) as ->
    by (rewrite !length_app; cbn; lia).
  match goal with
  | |- (drop 2 (take ?d _), drop ?d _) = _ =>
      replace d with (length ("//" ++ host))
  end.
  - rewrite !(app_assoc "//" host).
    by rewrite take_app_length, drop_app_length.
  - rewrite length_app. change (length ("//" : str)) with 2.
    destruct (find rest ["?"%char]), (find rest ["#"%char]); cbn; lia.
Qed.

Lemma urlsplit_plain (tail : str) :
  plain tail = true →
  urlsplit ("https://gameinformer.com/" ++ tail) []
  = Return ("https" : str, "gameinformer.com" : str, "/" ++ tail, [], []).
Proof.
  intros Hp.
  pose proof (plain_not_elem tail "009" Hp eq_refl) as Htab.
  pose proof (plain_not_elem tail "013" Hp eq_refl) as Hcr.
  pose proof (plain_not_elem tail newline Hp eq_refl) as Hnl.
  pose proof (plain_not_elem tail "?" Hp eq_refl) as Hq.
  pose proof (plain_not_elem tail "#" Hp eq_refl) as Hf.
  unfold urlsplit. cbv zeta.
  assert (lstrip ("https://gameinformer.com/" ++ tail)
                 WHATWG_C0_CONTROL_OR_SPACE
          = "https://gameinformer.com/" ++ tail) as -> by reflexivity.
  assert (strip [] WHATWG_C0_CONTROL_OR_SPACE = []) as -> by reflexivity.
  assert (foldl remove_char [] UNSAFE_URL_BYTES_TO_REMOVE = []) as ->
    by reflexivity.
  assert (foldl remove_char ("https://gameinformer.com/" ++ tail)
                UNSAFE_URL_BYTES_TO_REMOVE
          = "https://gameinformer.com/" ++ tail) as ->.
  { change (foldl remove_char ("https://gameinformer.com/" ++ tail)
                  UNSAFE_URL_BYTES_TO_REMOVE)
      with ("https://gameinformer.com/"
              ++ remove_char (remove_char (remove_char tail "009") "013")
                             newline).
    by rewrite (remove_char_id tail "009"), (remove_char_id tail "013"),
      (remove_char_id tail newline). }
  assert (find ("https://gameinformer.com/" ++ tail) ":" = Some 5) as ->
    by reflexivity.
  change ("https://gameinformer.com/" ++ tail)
    with ("h"%char :: ("ttps://gameinformer.com/" ++ tail)).
  cbv beta iota.
  assert (take 5 ("h"%char :: "ttps://gameinformer.com/" ++ tail) = "https")
    as -> by reflexivity.
  assert (isascii_alpha "h"
          && forallb (λ c, char_in c scheme_chars) ("https" : str) = true)
    as -> by reflexivity.
  assert (lower "https" = "https") as -> by reflexivity.
  assert (drop (5 + 1) ("h"%char :: "ttps://gameinformer.com/" ++ tail)
          = "//" ++ "gameinformer.com" ++ "/" ++ tail) as -> by reflexivity.
  cbv beta iota.
  assert (take 2 ("//" ++ "gameinformer.com" ++ "/" ++ tail) = "//")
    as -> by reflexivity.
  rewrite bool_decide_eq_true_2 by done.
  rewrite splitnetloc_host
    by (intros H%char_in_elem_of; by vm_compute in H).
  cbv beta iota.
  assert (contains "gameinformer.com" "[" = false) as -> by reflexivity.
  assert (contains "gameinformer.com" "]" = false) as -> by reflexivity.
  cbn [andb orb negb]. rewrite bind_Return. cbv beta iota.
  change (contains ("/" ++ tail) "#") with (contains tail ["#"%char]).
  rewrite contains_char_false by done. cbv beta iota.
  change (contains ("/" ++ tail) "?") with (contains tail ["?"%char]).
  rewrite contains_char_false by done.
  done.
Qed.

Lemma urlparse_plain (tail : str) :
  plain tail = true →
  urlparse ("https://gameinformer.com/" ++ tail) []
  = Return (mkParseResult "https" "gameinformer.com" ("/" ++ tail) [] [] []).
Proof.
  intros Hp. unfold urlparse. rewrite urlsplit_plain, bind_Return by done.
  cbv beta iota.
  change (contains ("/" ++ tail) ";") with (contains tail [";"%char]).
  rewrite contains_char_false by (by apply (plain_not_elem tail ";")).
  by rewrite andb_false_r.
Qed.



Lemma plain_app (a b : str) : plain (a ++ b) = plain a && plain b.
Proof. apply forallb_app. Qed.



(** ** De-duplication *)

(** The loop keeps, after a prefix [pre] of the list that it has seen, the
    elements that do not occur earlier in the whole list. *)
Lemma unique_loop_first_occurrences (pre l : list str) (seen : gset str)
    (acc : list str) :
  (∀ x, x ∈ seen ↔ x ∈ pre) →
  (foldl unique_step (seen, acc) l).2
  = acc ++ (filter (λ p : nat * str, p.2 ∉ take p.1 (pre ++ l))
                   (imap (λ i x, (length pre + i, x)) l)).*2.
Proof.
  revert pre seen acc. induction l as [|x l IH]; intros pre seen acc Hseen.
  - by rewrite app_nil_r.
  - cbn [foldl]. rewrite imap_cons, filter_cons. cbn [fst snd].
    replace (take (length pre + 0) (pre ++ x :: l)) with pre
      by (by rewrite Nat.add_0_r, take_app_length).
    assert (imap ((λ i y, (length pre + i, y)) ∘ S) l
            = imap (λ i y, (length (pre ++ [x]) + i, y)) l) as ->.
    { apply imap_ext. intros i y _. cbn. rewrite length_app. cbn.
      f_equal. lia. }
    rewrite (cons_middle x pre l), app_assoc.
    destruct (decide (x ∉ pre)) as [Hx|Hx].
    + assert (unique_step (seen, acc) x = ({[x]} ∪ seen, acc ++ [x])) as ->.
      { unfold unique_step. rewrite bool_decide_eq_true_2; [done|].
        by intros ?%Hseen. }
      rewrite (IH (pre ++ [x])).
      * by rewrite fmap_cons, <- app_assoc.
      * intros y. rewrite elem_of_union, elem_of_singleton, elem_of_app,
          list_elem_of_singleton, Hseen. tauto.
    + assert (unique_step (seen, acc) x = (seen, acc)) as ->.
      { unfold unique_step. rewrite bool_decide_eq_false_2; [done|].
        intros Hn. apply Hx. by intros ?%Hseen. }
      apply (IH (pre ++ [x])). intros y.
      rewrite elem_of_app, list_elem_of_singleton, Hseen.
      split; [tauto|]. intros [?| ->]; [done|]. by apply dec_stable.
Qed.

Lemma unique_loop_invariant (l : list str) (seen : gset str) (acc : list str) :
  NoDup acc → (∀ x, x ∈ seen ↔ x ∈ acc) →
  NoDup (foldl unique_step (seen, acc) l).2
  ∧ ∀ x, x ∈ (foldl unique_step (seen, acc) l).2 ↔ x ∈ acc ∨ x ∈ l.
Proof.
  revert seen acc. induction l as [|y l IH]; intros seen acc Hnd Hseen.
  - split; [done|]. intros x. rewrite elem_of_nil. tauto.
  - cbn [foldl]. unfold unique_step at 2 4.
    destruct (decide (y ∉ seen)) as [Hy|Hy].
    + rewrite bool_decide_eq_true_2 by done.
      destruct (IH ({[y]} ∪ seen) (acc ++ [y])) as [IH1 IH2].
      * apply NoDup_app. split_and!; [done| |apply NoDup_singleton].
        intros x Hx ->%list_elem_of_singleton. by apply Hy, Hseen.
      * intros x. rewrite elem_of_union, elem_of_singleton, elem_of_app,
          list_elem_of_singleton, Hseen. tauto.
      * split; [done|]. intros x.
        rewrite IH2, elem_of_app, list_elem_of_singleton, elem_of_cons. tauto.
    + rewrite bool_decide_eq_false_2 by done.
      destruct (IH seen acc Hnd Hseen) as [IH1 IH2].
      split; [done|]. intros x. rewrite IH2, elem_of_cons.
      split; [tauto|]. intros [?|[->|?]]; [tauto| |tauto].
      left. by apply Hseen, dec_stable.
Qed.

(** C6.  The de-duplication loop returns the first occurrence of each value
    of its input, in the order of the input: the element at index [i] is
    kept exactly when it does not occur before [i].  The result has no
    duplicates and the same values as the input, and [A, B, A, C] gives
    [A, B, C]. *)
Theorem C6_unique_first_occurrences (normalized_urls : list str) :
  unique normalized_urls = first_occurrences normalized_urls
  ∧ NoDup (unique normalized_urls)
  ∧ (∀ url, url ∈ unique normalized_urls ↔ url ∈ normalized_urls)
  ∧ unique [("A" : str); ("B" : str); ("A" : str); ("C" : str)]
    = [("A" : str); ("B" : str); ("C" : str)].
Proof.
  unfold unique, first_occurrences. split_and!.
  - rewrite (unique_loop_first_occurrences [] normalized_urls ∅ []); [done|].
    intros x. by rewrite elem_of_empty, elem_of_nil.
  - apply unique_loop_invariant; [constructor|].
    intros x. by rewrite elem_of_empty, elem_of_nil.
  - intros url.
    destruct (unique_loop_invariant normalized_urls ∅ []) as [_ ->];
      [constructor| |].
    + intros x. by rewrite elem_of_empty, elem_of_nil.
    + rewrite elem_of_nil. tauto.
  - by vm_compute.
Qed.

(** ** The download step *)

Lemma M_bind_unfold {A B} (m : M A) (k : A → M B) (w : World) :
  (m ≫= k) w
  = match m w with
    | (Return a, w') => k a w'
    | (Raise e, w') => (Raise e, w')
    end.
Proof. done. Qed.

Lemma download_image_stages (url output_dir : str) (w : World) :
  download_image url output_dir w
  = match urlparse url [] with
    | Raise e => (Raise e, w)
    | Return parsed =>
        match filename_of url parsed with
        | Raise e => (Raise e, w)
        | Return filename =>
            let filepath := os_path_join output_dir filename in
            if bool_decide (is_Some (fs w !! filepath)) then
              (Return true, printed (skip_line filename) w)
            else
              try_except (fetch_and_write url filename filepath)
                         (report_error filename) w
        end
    end.
Proof.
  unfold download_image, filename_of. rewrite M_bind_unfold. unfold lift at 1.
  destruct (urlparse url []) as [parsed|e]; [|done].
  rewrite M_bind_unfold.
  destruct (negb (truthy (basename (path parsed)))).
  - unfold lift. destruct (getitem_last (split url "/")) as [filename|e]; [|done].
    rewrite M_bind_unfold. unfold path_exists at 1.
    by destruct (bool_decide _).
  - unfold mret at 1, M_ret at 1.
    rewrite M_bind_unfold. unfold path_exists at 1.
    by destruct (bool_decide _).
Qed.


Lemma download_step_stages (output_dir : str) (total i : nat) (url : str)
    (success_count skip_count : nat) (w0 : World) :
  download_step output_dir total i url (success_count, skip_count) w0
  = let w := printed (progress_line total i url) w0 in
    match urlparse url [] with
    | Raise e => (Raise e, w)
    | Return parsed =>
        let filename := basename (path parsed) in
        if bool_decide (is_Some (fs w0 !! pathlib_join output_dir filename))
        then (Return (success_count, skip_count + 1),
              printed (skip_line filename) w)
        else
          match download_image url output_dir w with
          | (Return ok, w') =>
              (Return (if ok then success_count + 1 else success_count,
                       skip_count),
               printed [] w')
          | (Raise e, w') => (Raise e, w')
          end
    end.
Proof.
  unfold download_step. rewrite M_bind_unfold. unfold print at 1.
  rewrite M_bind_unfold. unfold lift at 1.
  destruct (urlparse url []) as [parsed|e]; [|done].
  rewrite M_bind_unfold. unfold path_exists at 1. cbn [fs set_stdout].
  destruct (bool_decide _); [done|].
  rewrite M_bind_unfold.
  by destruct (download_image _ _ _) as [[[]|] ?].
Qed.

(** C7.  When the file that the URL names is already in the output
    directory, [download_image] prints the skip line and returns [True]
    without a request and without a change of the file system; the loop of
    [main], which tests for the file itself, prints the skip line, counts
    the URL as skipped and does not call [download_image]. *)
Theorem C7_skip_existing (url output_dir : str) (parsed : ParseResult)
    (w : World) :
  urlparse url [] = Return parsed →
  (∀ filename,
     filename_of url parsed = Return filename →
     is_Some (fs w !! os_path_join output_dir filename) →
     ∃ w', download_image url output_dir w = (Return true, w')
           ∧ requested w' = requested w
           ∧ fs w' = fs w
           ∧ stdout w' = stdout w ++ [skip_line filename])
  ∧ (∀ total i success_count skip_count,
       is_Some (fs w !! pathlib_join output_dir (basename (path parsed))) →
       ∃ w', download_step output_dir total i url
                           (success_count, skip_count) w
             = (Return (success_count, skip_count + 1), w')
             ∧ requested w' = requested w
             ∧ fs w' = fs w
             ∧ stdout w' = stdout w ++ [progress_line total i url;
                                        skip_line (basename (path parsed))]).
Proof.
  intros Hparse. split.
  - intros filename Hname Hfile. eexists. split.
    + rewrite download_image_stages, Hparse, Hname. cbv zeta.
      by rewrite bool_decide_eq_true_2.
    + done.
  - intros total i success_count skip_count Hfile. eexists. split.
    + rewrite download_step_stages, Hparse. cbv zeta.
      by rewrite bool_decide_eq_true_2.
    + split_and!; [done..|]. cbn. by rewrite <- app_assoc.
Qed.

(** C8 (as amended).  When the file is not there and the fetch-and-write
    step raises an exception [e] that derives from [Exception],
    [download_image] prints the error line with the file name and the
    message of [e] and returns [False]; the step of the loop changes none of
    its two counters, and the loop goes on with the remaining URLs. *)
Theorem C8_failure_is_soft (url output_dir : str) (parsed : ParseResult)
    (filename : str) (e : exn) (total i : nat) (rest : list str)
    (success_count skip_count : nat) (w0 w1 : World) :
  let w := printed (progress_line total i url) w0 in
  urlparse url [] = Return parsed →
  filename_of url parsed = Return filename →
  fs w0 !! pathlib_join output_dir (basename (path parsed)) = None →
  fs w0 !! os_path_join output_dir filename = None →
  fetch_and_write url filename (os_path_join output_dir filename) w
  = (Raise e, w1) →
  is_Exception e = true →
  let w2 := printed (error_line filename e) w1 in
  download_image url output_dir w = (Return false, w2)
  ∧ download_step output_dir total i url (success_count, skip_count) w0
    = (Return (success_count, skip_count), printed [] w2)
  ∧ download_loop output_dir total i (url :: rest)
                  (success_count, skip_count) w0
    = download_loop output_dir total (S i) rest
                    (success_count, skip_count) (printed [] w2).
Proof.
  intros w Hparse Hname Hmain Hfile Hraise Hexn w2.
  assert (download_image url output_dir w = (Return false, w2)) as Himg.
  { rewrite download_image_stages, Hparse, Hname. cbv zeta.
    rewrite bool_decide_eq_false_2
      by (cbn [fs w printed set_stdout]; rewrite Hfile; by intros []).
    unfold try_except. by rewrite Hraise, Hexn. }
  assert (download_step output_dir total i url (success_count, skip_count) w0
          = (Return (success_count, skip_count), printed [] w2)) as Hstep.
  { rewrite download_step_stages, Hparse. cbv zeta.
    rewrite bool_decide_eq_false_2 by (rewrite Hmain; by intros []).
    fold w. by rewrite Himg. }
  split_and!; [done..|].
  cbn [download_loop]. by rewrite M_bind_unfold, Hstep.
Qed.


(** A request that fails makes the fetch-and-write step raise, after the
    line that announces the download and with the request recorded. *)
Lemma fetch_and_write_request_fails (url filename filepath : str) (e : exn)
    (w : World) :
  net w (requested w) url = Raise e →
  fetch_and_write url filename filepath w
  = (Raise e,
     set_requested (λ l, l ++ [url])
       (printed ("  Downloading " ++ filename ++ "...") w)).
Proof.
  intros H. unfold fetch_and_write. rewrite M_bind_unfold. unfold print at 1.
  rewrite M_bind_unfold. unfold requests_get at 1.
  cbn [net requested printed set_stdout]. by rewrite H.
Qed.

(** An exception that does not derive from [Exception] is not caught. *)
Lemma try_except_base_exception {A} (body : M A) (handler : exn → M A)
    (e : exn) (w w' : World) :
  body w = (Raise e, w') → is_Exception e = false →
  try_except body handler w = (Raise e, w').
Proof. intros H He. unfold try_except. by rewrite H, He. Qed.


(** ** What [urlparse] returns as the path *)

Lemma split_once_first (url c : str) :
  c ≠ [] →
  contains (split_once url c).1 c = false ∧ (split_once url c).1 `prefix_of` url.
Proof.
  intros Hc. unfold split_once. destruct (contains url c) eqn:E; [|done].
  cbn [splitn]. destruct (find url c) as [i|] eqn:Ei.
  - cbn. split; [by apply find_Some_before | apply prefix_take].
  - apply find_None in Ei. congruence.
Qed.

Lemma urlsplit_path_no_delimiter (url sch : str) (s n p q f : str) :
  urlsplit url sch = Return (s, n, p, q, f) →
  contains p "#" = false ∧ contains p "?" = false.
Proof.
  unfold urlsplit. cbv zeta.
  match goal with
  | |- context [let '(a, b) := ?X in _] => destruct X as [sch' url']
  end.
  match goal with
  | |- (?E ≫= _) = _ → _ => destruct E as [[net url0]|e]; [|done]
  end.
  rewrite bind_Return.
  change (if contains url0 "#" then _ else _) with (split_once url0 "#").
  pose proof (split_once_first url0 "#") as [H1 H2]; [done|].
  destruct (split_once url0 "#") as [url1 frag]. cbn [fst] in H1, H2.
  change (if contains url1 "?" then _ else _) with (split_once url1 "?").
  pose proof (split_once_first url1 "?") as [H3 H4]; [done|].
  destruct (split_once url1 "?") as [url2 qry]. cbn [fst] in H3, H4.
  intros [= <- <- <- <- <-]. split; [|done].
  by apply (contains_false_prefix _ url1).
Qed.

Lemma splitparams_prefix (url : str) : (splitparams url).1 `prefix_of` url.
Proof.
  unfold splitparams. destruct (contains url "/").
  - destruct (find_from _ _ _); [apply prefix_take | done].
  - destruct (find url ";"); apply prefix_take.
Qed.

Lemma urlparse_path_no_delimiter (url sch : str) (parsed : ParseResult) :
  urlparse url sch = Return parsed →
  contains (path parsed) "#" = false ∧ contains (path parsed) "?" = false.
Proof.
  unfold urlparse.
  destruct (urlsplit url sch) as [[[[[s n] p] q] f]|e] eqn:E; [|done].
  rewrite bind_Return. apply urlsplit_path_no_delimiter in E as [H1 H2].
  destruct (bool_decide _ && _).
  - pose proof (splitparams_prefix p) as Hp.
    destruct (splitparams p) as [p' prm]. intros [= <-]. cbn [path fst] in *.
    split; by apply (contains_false_prefix _ p).
  - by intros [= <-].
Qed.


Lemma split_first_no_sep (x sep : str) :
  sep ≠ [] → contains x sep = false → getitem (split x sep) 0 = Return x.
Proof. intros Hsep H. by rewrite split_no_sep. Qed.

(** X1.  The path that [urlparse] returns holds neither [?] nor [#], so the
    removal of query and fragment at line 37 never changes the part of the
    path that was taken after the marker. *)
Theorem X1_query_fragment_removal_is_identity (url sch : str)
    (parsed : ParseResult) (x : str) :
  urlparse url sch = Return parsed →
  getitem (split (path parsed) marker) 1 = Return x →
  contains (path parsed) "?" = false
  ∧ contains (path parsed) "#" = false
  ∧ getitem (split x "?") 0 = Return x
  ∧ getitem (split x "#") 0 = Return x.
Proof.
  intros [Hf Hq]%urlparse_path_no_delimiter Hx.
  destruct (contains (path parsed) marker) eqn:Hm.
  - destruct (split_second (path parsed) marker) as (y & Hy & _ & a & b & E);
      [done..|].
    rewrite Hy in Hx. injection Hx as ->.
    assert (contains x "?" = false) as Hxq
      by (rewrite E in Hq; by apply contains_false_infix in Hq).
    assert (contains x "#" = false) as Hxf
      by (rewrite E in Hf; by apply contains_false_infix in Hf).
    split_and!; [done..| |]; by apply split_first_no_sep.
  - rewrite split_no_sep in Hx by done. done.
Qed.

(** X2.  [normalize_url] raises only what resolving or parsing the URL
    raises: the indexing of the split lists never fails, and nothing has
    been printed when an exception leaves the function. *)
Theorem X2_normalize_url_raises_from_urllib_only (url : str)
    (out : list str) (e : exn) :
  normalize_url url = (out, Raise e) →
  out = []
  ∧ (resolve url = Raise e
     ∨ ∃ abs, resolve url = Return abs ∧ urlparse abs [] = Raise e).
Proof.
  rewrite normalize_url_stages.
  destruct (resolve url) as [abs|e'] eqn:Hres.
  2:{ intros [= <- <-]. auto. }
  unfold normalize_resolved.
  destruct (urlparse abs []) as [parsed|e'] eqn:Hparse.
  2:{ intros [= <- <-]. split; [done|]. right. by exists abs. }
  destruct (contains (path parsed) marker) eqn:Hm; cbn [negb]; [|done].
  destruct (path_after_of_no_marker _ Hm) as (pa & -> & _). done.
Qed.


(** ** Parsing any URL of the fixed host *)

Lemma urlsplit_fixed_host (rest : str) :
  urlsplit ("https://gameinformer.com/" ++ rest) []
  = (let r := foldl remove_char rest UNSAFE_URL_BYTES_TO_REMOVE in
     let '(u1, frag) := split_once ("/" ++ r) "#" in
     let '(u2, qry) := split_once u1 "?" in
     Return ("https" : str, "gameinformer.com" : str, u2, qry, frag)).
Proof.
  unfold urlsplit. cbv zeta.
  assert (lstrip ("https://gameinformer.com/" ++ rest)
                 WHATWG_C0_CONTROL_OR_SPACE
          = "https://gameinformer.com/" ++ rest) as -> by reflexivity.
  assert (strip [] WHATWG_C0_CONTROL_OR_SPACE = []) as -> by reflexivity.
  assert (foldl remove_char [] UNSAFE_URL_BYTES_TO_REMOVE = []) as ->
    by reflexivity.
  change (foldl remove_char ("https://gameinformer.com/" ++ rest)
                UNSAFE_URL_BYTES_TO_REMOVE)
    with ("https://gameinformer.com/"
            ++ foldl remove_char rest UNSAFE_URL_BYTES_TO_REMOVE).
  generalize (foldl remove_char rest UNSAFE_URL_BYTES_TO_REMOVE).
  intros r.
  assert (find ("https://gameinformer.com/" ++ r) ":" = Some 5) as ->
    by reflexivity.
  change ("https://gameinformer.com/" ++ r)
    with ("h"%char :: ("ttps://gameinformer.com/" ++ r)).
  cbv beta iota.
  assert (take 5 ("h"%char :: "ttps://gameinformer.com/" ++ r) = "https")
    as -> by reflexivity.
  assert (isascii_alpha "h"
          && forallb (λ c, char_in c scheme_chars) ("https" : str) = true)
    as -> by reflexivity.
  assert (lower "https" = "https") as -> by reflexivity.
  assert (drop (5 + 1) ("h"%char :: "ttps://gameinformer.com/" ++ r)
          = "//" ++ "gameinformer.com" ++ "/" ++ r) as -> by reflexivity.
  cbv beta iota.
  assert (take 2 ("//" ++ "gameinformer.com" ++ "/" ++ r) = "//")
    as -> by reflexivity.
  rewrite bool_decide_eq_true_2 by done.
  rewrite splitnetloc_host
    by (intros H%char_in_elem_of; by vm_compute in H).
  cbv beta iota.
  assert (contains "gameinformer.com" "[" = false) as -> by reflexivity.
  assert (contains "gameinformer.com" "]" = false) as -> by reflexivity.
  cbn [andb orb negb]. rewrite bind_Return. reflexivity.
Qed.

Lemma urlparse_fixed_host (rest : str) :
  ∃ p prm q f,
    urlparse ("https://gameinformer.com/" ++ rest) []
    = Return (mkParseResult "https" "gameinformer.com" p prm q f).
Proof.
  unfold urlparse. rewrite urlsplit_fixed_host. cbv zeta.
  destruct (split_once _ "#") as [u1 frag].
  destruct (split_once u1 "?") as [u2 qry]. rewrite bind_Return.
  cbv beta iota. destruct (_ && _); [|by eauto].
  destruct (splitparams u2). by eauto.
Qed.

Lemma splitn_not_nil n (s sep : str) : splitn n s sep ≠ [].
Proof. destruct n; simpl; [done|]. by destruct (find s sep). Qed.

Lemma getitem_last_split (s sep : str) :
  ∃ x, getitem_last (split s sep) = Return x.
Proof.
  unfold getitem_last, split.
  destruct (last (splitn (length s) s sep)) as [x|] eqn:E; [by eauto|].
  apply last_None in E. by apply splitn_not_nil in E.
Qed.

Lemma filename_of_returns (url : str) (parsed : ParseResult) :
  ∃ filename, filename_of url parsed = Return filename.
Proof.
  unfold filename_of. destruct (negb _); [apply getitem_last_split | by eauto].
Qed.

(** X3.  Every URL that [normalize_url] returns is parsed by [urlparse]
    without an exception, and a file name is derived from it: on the URLs
    that [main] hands to its loop and to [download_image], lines 93-96 and
    line 159 do not raise. *)
Theorem X3_normalized_urls_parse (url v : str) (out : list str) :
  normalize_url url = (out, Return v) →
  ∃ parsed filename,
    urlparse v [] = Return parsed ∧ filename_of v parsed = Return filename.
Proof.
  rewrite normalize_url_stages.
  destruct (resolve url) as [abs|e]; [|done]. unfold normalize_resolved.
  destruct (urlparse abs []) as [parsed|e] eqn:Hparse; [|done].
  assert (∀ u p, urlparse u [] = Return p →
            ∃ parsed filename,
              urlparse u [] = Return parsed
              ∧ filename_of u parsed = Return filename) as Hname.
  { intros u p Hu. destruct (filename_of_returns u p) as [f Hf]. eauto. }
  destruct (negb _).
  - intros [= _ <-]. eauto.
  - destruct (path_after_of (path parsed)) as [pa|e]; [|done].
    rewrite bind_Return. intros [= _ <-].
    destruct (urlparse_fixed_host
                ("sites/default/files/styles/no_compression/public/"
                   ++ ensure_jpg_webp pa)) as (p & prm & q & f & Hp).
    by eapply Hname.
Qed.


(** ** Query and fragment of a canonical URL *)

Lemma remove_char_app (a b : str) (c : ascii) :
  remove_char (a ++ b) c = remove_char a c ++ remove_char b c.
Proof.
  induction a as [|d a IH]; [done|]. simpl.
  destruct (Ascii.eqb d c); by rewrite IH.
Qed.

Lemma remove_unsafe_app (a b : str) :
  foldl remove_char (a ++ b) UNSAFE_URL_BYTES_TO_REMOVE
  = foldl remove_char a UNSAFE_URL_BYTES_TO_REMOVE
    ++ foldl remove_char b UNSAFE_URL_BYTES_TO_REMOVE.
Proof. cbn. by rewrite !remove_char_app. Qed.

Lemma remove_unsafe_plain (s : str) :
  plain s = true → foldl remove_char s UNSAFE_URL_BYTES_TO_REMOVE = s.
Proof.
  intros Hp. cbn.
  by rewrite (remove_char_id s "009"), (remove_char_id s "013"),
    (remove_char_id s newline) by (by apply plain_not_elem).
Qed.

Lemma split_once_at (a b : str) (c : ascii) :
  c ∉ a → split_once (a ++ c :: b) [c] = (a, b).
Proof.
  intros Hc. unfold split_once.
  assert (contains (a ++ c :: b) [c] = true) as ->
    by (apply contains_infix; by exists a, b).
  cbn [splitn]. rewrite find_char_app, find_char_head by done.
  cbn [fmap option_fmap option_map]. rewrite Nat.add_0_r.
  rewrite take_app_length. change (length [c]) with 1.
  replace (length a + 1) with (length (a ++ [c])) by (by rewrite length_app).
  by rewrite (cons_middle c a b), app_assoc, drop_app_length.
Qed.

(** Cutting the fragment off leaves everything before a [#]-free start. *)
Lemma split_once_keeps_start (a q : str) (c : ascii) :
  c ∉ a → ∃ q', (split_once (a ++ q) [c]).1 = a ++ q'.
Proof.
  intros Hc. destruct (decide (c ∈ q)) as [Hq|Hq].
  - apply list_elem_of_split_l in Hq as (q1 & q2 & -> & Hq1).
    exists q1. rewrite app_assoc, split_once_at; [done|].
    rewrite not_elem_of_app. done.
  - exists q. unfold split_once.
    rewrite contains_char_false; [done|]. by rewrite not_elem_of_app.
Qed.

Lemma normalize_resolved_canonical_path (abs : str) (parsed : ParseResult)
    (tail : str) :
  urlparse abs [] = Return parsed →
  path parsed = marker ++ public_prefix ++ tail →
  contains (public_prefix ++ tail) marker = false →
  endswith tail ".jpg.webp" = true →
  normalize_resolved abs = ([], Return (canonical_prefix ++ tail)).
Proof.
  intros Hparse Hpath Hm Hend. unfold normalize_resolved.
  destruct (urlparse_path_no_delimiter _ _ _ Hparse) as [Hf Hq].
  rewrite Hparse, Hpath in *.
  assert (contains (marker ++ public_prefix ++ tail) marker = true) as ->
    by reflexivity.
  cbn [negb]. unfold path_after_of.
  rewrite (split_unfold (marker ++ _)) by done.
  assert (find (marker ++ public_prefix ++ tail) marker = Some 0) as ->
    by reflexivity.
  change (drop (0 + length marker) (marker ++ public_prefix ++ tail))
    with (public_prefix ++ tail).
  rewrite (split_no_sep (public_prefix ++ tail) marker) by done.
  change (getitem [take 0 (marker ++ public_prefix ++ tail);
                   public_prefix ++ tail] 1)
    with (Return (public_prefix ++ tail)).
  rewrite bind_Return.
  rewrite (split_first_no_sep _ "?"), bind_Return
    by (done || by apply (contains_false_drop _ _ (length marker)) in Hq).
  rewrite (split_first_no_sep _ "#"), bind_Return
    by (done || by apply (contains_false_drop _ _ (length marker)) in Hf).
  rewrite !bind_Return, startswith_app, drop_app_length.
  unfold ensure_jpg_webp. by rewrite Hend.
Qed.

Lemma urlparse_fixed_host_suffix (T d q : str) :
  plain T = true → d = "?" ∨ d = "#" →
  ∃ qry frag,
    urlparse ("https://gameinformer.com/" ++ T ++ d ++ q) []
    = Return (mkParseResult "https" "gameinformer.com" ("/" ++ T) []
                qry frag).
Proof.
  intros HT Hd.
  unfold urlparse. rewrite urlsplit_fixed_host. cbv zeta.
  rewrite remove_unsafe_app, (remove_unsafe_plain T HT), remove_unsafe_app.
  set (q' := foldl remove_char q UNSAFE_URL_BYTES_TO_REMOVE).
  pose proof (plain_not_elem T "?" HT eq_refl) as HTq.
  pose proof (plain_not_elem T "#" HT eq_refl) as HTf.
  pose proof (plain_not_elem T ";" HT eq_refl) as HTp.
  assert (∀ c : ascii, c ≠ "/"%char → c ∉ T → c ∉ "/" ++ T) as Hslash.
  { intros c Hc HcT. rewrite not_elem_of_app. split; [|done].
    by intros ->%list_elem_of_singleton. }
  assert (contains ("/" ++ T) ";" = false) as Hsemi
    by (by apply (contains_char_false ("/" ++ T) ";"), Hslash).
  destruct Hd as [-> | ->].
  - assert (foldl remove_char "?" UNSAFE_URL_BYTES_TO_REMOVE = "?") as ->
      by reflexivity.
    destruct (split_once_keeps_start ("/" ++ T ++ "?") q' "#") as [q'' Hq''].
    { rewrite app_assoc, not_elem_of_app. split; [by apply Hslash|].
      by intros [=]%list_elem_of_singleton. }
    replace ("/" ++ T ++ "?" ++ q') with (("/" ++ T ++ "?") ++ q')
      by (by rewrite <- !app_assoc).
    change (["#"%char]) with ("#" : str) in Hq''.
    destruct (split_once _ "#") as [u1 frag]. cbn [fst] in Hq''. subst u1.
    replace (("/" ++ T ++ "?") ++ q'') with (("/" ++ T) ++ "?"%char :: q'')
      by (by rewrite <- !app_assoc).
    assert (split_once (("/" ++ T) ++ "?"%char :: q'') "?" = ("/" ++ T, q''))
      as -> by (by apply (split_once_at ("/" ++ T) q'' "?"), Hslash).
    rewrite bind_Return. cbv beta iota. rewrite Hsemi, andb_false_r.
    by eauto.
  - assert (foldl remove_char "#" UNSAFE_URL_BYTES_TO_REMOVE = "#") as ->
      by reflexivity.
    replace ("/" ++ T ++ "#" ++ q') with (("/" ++ T) ++ "#"%char :: q')
      by (by rewrite <- !app_assoc).
    assert (split_once (("/" ++ T) ++ "#"%char :: q') "#" = ("/" ++ T, q'))
      as -> by (by apply (split_once_at ("/" ++ T) q' "#"), Hslash).
    assert (split_once ("/" ++ T) "?" = ("/" ++ T, [])) as ->.
    { unfold split_once.
      assert (contains ("/" ++ T) "?" = false) as ->; [|done].
      by apply (contains_char_false ("/" ++ T) "?"), Hslash. }
    rewrite bind_Return. cbv beta iota. rewrite Hsemi, andb_false_r.
    by eauto.
Qed.

(** X4.  A query or a fragment after a canonical URL is dropped: for a
    canonical URL [u] whose part after the prefix is plain and holds no
    second marker, [normalize_url] maps [u?q] and [u#q] to [u], whatever
    [q] is. *)
Theorem X4_query_and_fragment_dropped (rel d q : str) :
  plain rel = true →
  contains (public_prefix ++ rel ++ ".jpg.webp") marker = false →
  d = "?" ∨ d = "#" →
  normalize_url (canonical_prefix ++ (rel ++ ".jpg.webp") ++ d ++ q)
  = ([], Return (canonical_prefix ++ rel ++ ".jpg.webp")).
Proof.
  intros Hp Hm Hd.
  assert (plain (rel ++ ".jpg.webp") = true) as Ht
    by (by rewrite plain_app, Hp).
  set (tail := rel ++ ".jpg.webp") in *.
  set (T := "sites/default/files/" ++ public_prefix ++ tail).
  assert (plain T = true) as HT by (unfold T; by rewrite !plain_app, Ht).
  rewrite normalize_url_stages.
  assert (resolve (canonical_prefix ++ tail ++ d ++ q)
          = Return (canonical_prefix ++ tail ++ d ++ q)) as -> by reflexivity.
  destruct (urlparse_fixed_host_suffix T d q HT Hd) as (qry & frag & Hparse).
  apply (normalize_resolved_canonical_path _ _ tail) in Hparse;
    [|done|done|by apply endswith_app].
  exact Hparse.
Qed.


(** ** The effects of [download_image] *)

Lemma raise_for_status_cases (r : response) (w : World) :
  (is_error_status (status_code r) = false
   ∧ raise_for_status r w = (Return (), w))
  ∨ (is_error_status (status_code r) = true
     ∧ ∃ msg, raise_for_status r w = (Raise (Exn HTTPError msg), w)).
Proof.
  unfold raise_for_status, is_error_status.
  destruct (Nat.leb_spec 400 (status_code r)),
    (Nat.ltb_spec (status_code r) 500),
    (Nat.leb_spec 500 (status_code r)),
    (Nat.ltb_spec (status_code r) 600); cbn; try lia; eauto.
Qed.

Lemma fetch_and_write_stages (url filename filepath : str) (w : World) :
  fetch_and_write url filename filepath w
  = let w0 := after_request url filename w in
    match net w (requested w) url with
    | Raise e => (Raise e, w0)
    | Return r =>
        match raise_for_status r w0 with
        | (Raise e, w1) => (Raise e, w1)
        | (Return _, w1) =>
            match write_file filepath (content r) w1 with
            | (Raise e, w2) => (Raise e, w2)
            | (Return _, w2) =>
                (Return true, printed ("  ✓ Downloaded " ++ filename) w2)
            end
        end
    end.
Proof.
  unfold fetch_and_write. rewrite M_bind_unfold. unfold print at 1.
  rewrite M_bind_unfold. unfold requests_get at 1.
  cbn [net requested printed set_stdout].
  destruct (net w (requested w) url) as [r|e]; [|done].
  rewrite M_bind_unfold.
  destruct (raise_for_status r _) as [[[]|e] w1]; [|done].
  rewrite M_bind_unfold.
  by destruct (write_file filepath (content r) w1) as [[[]|e] w2].
Qed.

(** What the fetch-and-write step can do to the world: one request is
    added, the file system is the same or gets the one file, the output
    grows. *)
Lemma fetch_and_write_effects (url filename filepath : str) (w : World)
    (res : outcome bool) (w' : World) :
  fetch_and_write url filename filepath w = (res, w') →
  requested w' = requested w ++ [url]
  ∧ (fs w' = fs w ∨ ∃ d, fs w' = <[filepath := File d]> (fs w))
  ∧ stdout w `prefix_of` stdout w'
  ∧ net w' = net w ∧ open_error w' = open_error w
  ∧ write_error w' = write_error w.
Proof.
  rewrite fetch_and_write_stages. cbv zeta.
  assert (stdout w `prefix_of` stdout (after_request url filename w)) as Hout
    by (by eexists).
  destruct (net w (requested w) url) as [r|e].
  2:{ intros [= <- <-]. split_and!; auto. }
  destruct (raise_for_status_cases r (after_request url filename w))
    as [[_ ->]|[_ [msg ->]]].
  2:{ intros [= <- <-]. split_and!; auto. }
  unfold write_file.
  destruct (open_error _ filepath) as [e|].
  { intros [= <- <-]. split_and!; auto. }
  destruct (write_error _ filepath (content r)) as [e|];
    intros [= <- <-]; cbn; split_and!; eauto.
  rewrite <- app_assoc. by eexists.
Qed.


Lemma rfind_char_None (s : str) (c : ascii) : rfind s [c] = None → c ∉ s.
Proof.
  induction s as [|d s IH]; [intros _; apply not_elem_of_nil|].
  cbn [rfind]. destruct (rfind s [c]); [done|].
  cbn. destruct (Ascii.eqb_spec c d); [done|]. intros _.
  apply not_elem_of_cons. auto.
Qed.

Lemma rfind_char_Some (s : str) (c : ascii) i :
  rfind s [c] = Some i → c ∉ drop (S i) s.
Proof.
  revert i. induction s as [|d s IH]; intros i; [done|].
  cbn [rfind]. destruct (rfind s [c]) as [j|] eqn:E.
  - intros [= <-]. by apply IH.
  - destruct (startswith _ _); [|done]. intros [= <-]. cbn.
    by apply rfind_char_None.
Qed.

Lemma basename_no_slash (p : str) : "/"%char ∉ basename p.
Proof.
  unfold basename.
  destruct (rfind p "/") as [i|] eqn:E.
  - rewrite Nat.add_1_r. by apply rfind_char_Some.
  - by apply rfind_char_None.
Qed.

Lemma contains_char_true (s : str) (c : ascii) :
  c ∈ s → contains s [c] = true.
Proof.
  intros (a & b & ->)%list_elem_of_split. apply contains_infix.
  by exists a, b.
Qed.

Lemma splitn_pieces_no_sep (sep : str) n (s : str) :
  sep ≠ [] → (length s ≤ n)%nat →
  Forall (λ x, contains x sep = false) (splitn n s sep).
Proof.
  intros Hsep. revert s. induction n as [|n IH]; intros s Hn.
  - destruct s; [|simpl in Hn; lia]. constructor; [|done].
    cbn. by rewrite (startswith_nil_l sep Hsep).
  - cbn [splitn]. destruct (find s sep) as [i|] eqn:E.
    + constructor; [by apply find_Some_before|]. apply IH.
      apply find_Some_le in E.
      assert (0 < length sep)%nat by (destruct sep; [done | simpl; lia]).
      rewrite length_drop. lia.
    + constructor; [by apply find_None | done].
Qed.

Lemma filename_of_no_slash (url : str) (parsed : ParseResult) (f : str) :
  filename_of url parsed = Return f → "/"%char ∉ f.
Proof.
  unfold filename_of. destruct (negb _).
  - unfold getitem_last. destruct (last (split url "/")) as [x|] eqn:E; [|done].
    intros [= <-]. apply last_Some_elem_of in E.
    pose proof (splitn_pieces_no_sep "/" (length url) url) as H.
    rewrite Forall_forall in H. intros Hx%contains_char_true.
    assert (contains x ["/"%char] = false) as Hno by (by apply H).
    congruence.
  - intros [= <-]. apply basename_no_slash.
Qed.

Lemma world_grows_refl (w : World) : world_grows w w.
Proof. by unfold world_grows. Qed.

Lemma world_grows_trans (w1 w2 w3 : World) :
  world_grows w1 w2 → world_grows w2 w3 → world_grows w1 w3.
Proof.
  intros (F1 & R1 & O1 & N1 & P1 & W1) (F2 & R2 & O2 & N2 & P2 & W2).
  unfold world_grows. split_and!; [auto| | |congruence..]; by etrans.
Qed.

Lemma world_grows_printed (line : str) (w : World) :
  world_grows w (printed line w).
Proof. unfold world_grows. split_and!; try done. by eexists. Qed.

(** X5.  Whatever happens in [download_image], it makes at most one
    request, it leaves every existing path with its content, and the only
    path it can add is the output directory joined with a name that has no
    slash in it; what was requested and printed before is kept. *)
Theorem X5_download_image_effects (url output_dir : str) (w : World)
    (res : outcome bool) (w' : World) :
  download_image url output_dir w = (res, w') →
  world_grows w w'
  ∧ (length (requested w') ≤ length (requested w) + 1)%nat
  ∧ (fs w' = fs w
     ∨ ∃ f d, ("/"%char ∉ f)
              ∧ fs w !! os_path_join output_dir f = None
              ∧ fs w' = <[os_path_join output_dir f := File d]> (fs w)).
Proof.
  rewrite download_image_stages.
  destruct (urlparse url []) as [parsed|e].
  2:{ intros [= <- <-]. split_and!; [apply world_grows_refl|lia|auto]. }
  destruct (filename_of url parsed) as [filename|e] eqn:Hname.
  2:{ intros [= <- <-]. split_and!; [apply world_grows_refl|lia|auto]. }
  cbv zeta. destruct (bool_decide _) eqn:Hex.
  { intros [= <- <-].
    split_and!; [apply world_grows_printed|cbn; lia|auto]. }
  apply bool_decide_eq_false in Hex.
  assert (fs w !! os_path_join output_dir filename = None) as Hnone.
  { destruct (fs w !! _) eqn:E; [|done]. exfalso. apply Hex. by eexists. }
  unfold try_except.
  destruct (fetch_and_write _ _ _ w) as [r1 w1] eqn:Hfw.
  apply fetch_and_write_effects in Hfw as (Hreq & Hfs & Hout & Hn & Ho & Hw).
  assert (world_grows w w1) as Hg.
  { unfold world_grows. split_and!; try done.
    - intros p n Hp. destruct Hfs as [->|[d ->]]; [done|].
      rewrite lookup_insert_ne; [done|]. intros <-. congruence.
    - rewrite Hreq. by eexists. }
  assert (fs w1 = fs w
          ∨ ∃ f d, ("/"%char ∉ f)
                   ∧ fs w !! os_path_join output_dir f = None
                   ∧ fs w1 = <[os_path_join output_dir f := File d]> (fs w))
    as Hfs'.
  { destruct Hfs as [->|[d ->]]; [auto|]. right. exists filename, d.
    split_and!; [|done..]. by eapply filename_of_no_slash. }
  assert (length (requested w1) ≤ length (requested w) + 1)%nat as Hlen
    by (rewrite Hreq, length_app; cbn; lia).
  destruct r1 as [b|e].
  { intros [= <- <-]. done. }
  destruct (is_Exception e).
  - intros [= <- <-]. split_and!; [|done..].
    eapply world_grows_trans; [exact Hg | apply world_grows_printed].
  - intros [= <- <-]. done.
Qed.


Lemma download_image_absent (url output_dir : str) (parsed : ParseResult)
    (filename : str) (w : World) :
  urlparse url [] = Return parsed →
  filename_of url parsed = Return filename →
  fs w !! os_path_join output_dir filename = None →
  download_image url output_dir w
  = try_except
      (fetch_and_write url filename (os_path_join output_dir filename))
      (report_error filename) w.
Proof.
  intros Hparse Hname Hnone.
  rewrite download_image_stages, Hparse, Hname. cbv zeta.
  rewrite bool_decide_eq_false_2; [done|]. rewrite Hnone. by intros [].
Qed.

Lemma download_image_present (url output_dir : str) (parsed : ParseResult)
    (filename : str) (w : World) :
  urlparse url [] = Return parsed →
  filename_of url parsed = Return filename →
  is_Some (fs w !! os_path_join output_dir filename) →
  download_image url output_dir w
  = (Return true, printed (skip_line filename) w).
Proof.
  intros Hparse Hname Hsome.
  rewrite download_image_stages, Hparse, Hname. cbv zeta.
  by rewrite bool_decide_eq_true_2.
Qed.

(** X6.  When the file is not there, the request is answered with a status
    outside 400..599 and the file can be opened and written,
    [download_image] makes exactly this one request, stores the body of the
    response under the file name in the output directory, prints the two
    lines and returns [True]; called again in the world it leaves, it
    finds the file, prints the skip line and makes no request. *)
Theorem X6_download_then_skip (url output_dir : str) (parsed : ParseResult)
    (filename : str) (w : World) (r : response) :
  let filepath := os_path_join output_dir filename in
  urlparse url [] = Return parsed →
  filename_of url parsed = Return filename →
  fs w !! filepath = None →
  net w (requested w) url = Return r →
  is_error_status (status_code r) = false →
  open_error w filepath = None →
  write_error w filepath (content r) = None →
  ∃ w',
    download_image url output_dir w = (Return true, w')
    ∧ requested w' = requested w ++ [url]
    ∧ fs w' = <[filepath := File (content r)]> (fs w)
    ∧ stdout w' = stdout w ++ [("  Downloading " ++ filename ++ "..." : str);
                               ("  ✓ Downloaded " ++ filename : str)]
    ∧ download_image url output_dir w'
      = (Return true, printed (skip_line filename) w').
Proof.
  intros filepath Hparse Hname Hnone Hnet Hstatus Hopen Hwrite.
  eexists. split.
  - rewrite (download_image_absent _ _ _ _ _ Hparse Hname Hnone).
    unfold try_except. rewrite fetch_and_write_stages. cbv zeta.
    rewrite Hnet.
    destruct (raise_for_status_cases r (after_request url filename w))
      as [[_ ->]|[E _]]; [|congruence].
    unfold write_file. cbn [open_error write_error after_request
      set_requested printed set_stdout].
    fold filepath. by rewrite Hopen, Hwrite.
  - split_and!; [done|done|cbn; by rewrite <- app_assoc|].
    apply (download_image_present _ _ _ _ _ Hparse Hname).
    cbn. fold filepath. rewrite lookup_insert_eq. by eexists.
Qed.

(** X7.  When the request is answered with a status in 400..599,
    [download_image] returns [False] and creates no file: the error line
    carries the message of [raise_for_status], with the status, [Client
    Error] below 500 and [Server Error] from 500 on, the reason and the URL
    of the response. *)
Theorem X7_http_error_status (url output_dir : str) (parsed : ParseResult)
    (filename : str) (w : World) (r : response) :
  urlparse url [] = Return parsed →
  filename_of url parsed = Return filename →
  fs w !! os_path_join output_dir filename = None →
  net w (requested w) url = Return r →
  is_error_status (status_code r) = true →
  let msg : str :=
    str_of_nat (status_code r)
      ++ (if Nat.ltb (status_code r) 500
          then " Client Error: " else " Server Error: ")
      ++ reason r ++ " for url: " ++ resp_url r in
  ∃ w',
    download_image url output_dir w = (Return false, w')
    ∧ requested w' = requested w ++ [url]
    ∧ fs w' = fs w
    ∧ stdout w' = stdout w ++ [("  Downloading " ++ filename ++ "..." : str);
                               error_line filename (Exn HTTPError msg)].
Proof.
  intros Hparse Hname Hnone Hnet Hstatus msg.
  exists (printed (error_line filename (Exn HTTPError msg))
            (after_request url filename w)).
  split.
  - rewrite (download_image_absent _ _ _ _ _ Hparse Hname Hnone).
    unfold try_except. rewrite fetch_and_write_stages. cbv zeta.
    rewrite Hnet. unfold raise_for_status, lift.
    unfold is_error_status in Hstatus.
    apply andb_true_iff in Hstatus as [H400 H600]. rewrite H400.
    unfold msg.
    destruct (Nat.ltb_spec (status_code r) 500) as [H5|H5]; cbn [andb].
    + reflexivity.
    + apply Nat.leb_le in H5. rewrite H5, H600. reflexivity.
  - split_and!; [done|done|]. cbn. by rewrite <- app_assoc.
Qed.

(** X8.  When the body has arrived and the file was opened but writing it
    fails with an exception that derives from [Exception],
    [download_image] returns [False] and leaves the file behind; the next
    call finds a file of that name, reports the URL as skipped and does not
    request it again. *)
Theorem X8_failed_write_is_never_repaired (url output_dir : str)
    (parsed : ParseResult) (filename : str) (w : World) (r : response)
    (e : exn) :
  let filepath := os_path_join output_dir filename in
  urlparse url [] = Return parsed →
  filename_of url parsed = Return filename →
  fs w !! filepath = None →
  net w (requested w) url = Return r →
  is_error_status (status_code r) = false →
  open_error w filepath = None →
  write_error w filepath (content r) = Some e →
  is_Exception e = true →
  ∃ w',
    download_image url output_dir w = (Return false, w')
    ∧ is_Some (fs w' !! filepath)
    ∧ download_image url output_dir w'
      = (Return true, printed (skip_line filename) w').
Proof.
  intros filepath Hparse Hname Hnone Hnet Hstatus Hopen Hwrite Hexn.
  eexists. split.
  - rewrite (download_image_absent _ _ _ _ _ Hparse Hname Hnone).
    unfold try_except. rewrite fetch_and_write_stages. cbv zeta.
    rewrite Hnet.
    destruct (raise_for_status_cases r (after_request url filename w))
      as [[_ ->]|[E _]]; [|congruence].
    unfold write_file. cbn [open_error write_error after_request
      set_requested printed set_stdout].
    fold filepath. by rewrite Hopen, Hwrite, Hexn.
  - assert (is_Some (<[filepath := File []]> (fs w) !! filepath)) as Hsome
      by (rewrite lookup_insert_eq; by eexists).
    split; [exact Hsome|].
    by apply (download_image_present _ _ _ _ _ Hparse Hname).
Qed.


(** ** The loop of [main] *)

Lemma download_image_grows (url output_dir : str) (w : World)
    (res : outcome bool) (w' : World) :
  download_image url output_dir w = (res, w') →
  world_grows w w'
  ∧ (length (requested w') ≤ length (requested w) + 1)%nat.
Proof.
  rewrite download_image_stages.
  destruct (urlparse url []) as [parsed|e].
  2:{ intros [= <- <-]. split; [apply world_grows_refl|lia]. }
  destruct (filename_of url parsed) as [filename|e].
  2:{ intros [= <- <-]. split; [apply world_grows_refl|lia]. }
  cbv zeta. destruct (bool_decide _) eqn:Hex.
  { intros [= <- <-]. split; [apply world_grows_printed|cbn; lia]. }
  apply bool_decide_eq_false in Hex. unfold try_except.
  destruct (fetch_and_write _ _ _ w) as [r1 w1] eqn:Hfw.
  apply fetch_and_write_effects in Hfw as (Hreq & Hfs & Hout & Hn & Ho & Hw).
  assert (world_grows w w1) as Hg.
  { unfold world_grows. split_and!; try done.
    - intros p n Hp. destruct Hfs as [->|[d ->]]; [done|].
      rewrite lookup_insert_ne; [done|]. intros <-. apply Hex. by eexists.
    - rewrite Hreq. by eexists. }
  assert (length (requested w1) ≤ length (requested w) + 1)%nat as Hlen
    by (rewrite Hreq, length_app; cbn; lia).
  destruct r1 as [b|e]; [by intros [= <- <-]|].
  destruct (is_Exception e); intros [= <- <-]; [|done].
  split; [|done].
  eapply world_grows_trans; [exact Hg | apply world_grows_printed].
Qed.

Lemma download_image_true_file (url output_dir : str) (parsed : ParseResult)
    (filename : str) (w w' : World) :
  urlparse url [] = Return parsed →
  filename_of url parsed = Return filename →
  download_image url output_dir w = (Return true, w') →
  is_Some (fs w' !! os_path_join output_dir filename).
Proof.
  intros Hparse Hname. rewrite download_image_stages, Hparse, Hname.
  cbv zeta. destruct (bool_decide _) eqn:Hex.
  { intros [= <-]. by apply bool_decide_eq_true in Hex. }
  unfold try_except. rewrite fetch_and_write_stages. cbv zeta.
  destruct (net w (requested w) url) as [r|e].
  2:{ by destruct (is_Exception e). }
  destruct (raise_for_status_cases r (after_request url filename w))
    as [[_ ->]|[_ [msg ->]]]; [|done].
  unfold write_file. destruct (open_error _ _) as [e|].
  { by destruct (is_Exception e). }
  destruct (write_error _ _ _) as [e|].
  { by destruct (is_Exception e). }
  intros [= <-]. cbn. rewrite lookup_insert_eq. by eexists.
Qed.

(** One step of the loop either raises, or counts a skip without a
    request and without a change of the files, or comes back from
    [download_image] with the skip counter as it was. *)
Lemma download_step_effects (output_dir : str) (total i : nat) (url : str)
    (s k : nat) (w : World) (res : outcome (nat * nat)) (w' : World) :
  download_step output_dir total i url (s, k) w = (res, w') →
  world_grows w w'
  ∧ (length (requested w') ≤ length (requested w) + 1)%nat
  ∧ ((∃ e, res = Raise e)
     ∨ (res = Return (s, k + 1) ∧ requested w' = requested w
        ∧ fs w' = fs w)
     ∨ (res = Return (s, k) ∨ res = Return (s + 1, k))).
Proof.
  rewrite download_step_stages. cbv zeta.
  destruct (urlparse url []) as [parsed|e].
  2:{ intros [= <- <-].
      split_and!; [apply world_grows_printed|cbn; lia|eauto]. }
  destruct (bool_decide _).
  { intros [= <- <-]. split_and!; [|cbn; lia|auto].
    eapply world_grows_trans; apply world_grows_printed. }
  destruct (download_image _ _ _) as [r1 w1] eqn:Himg.
  apply download_image_grows in Himg as [Hg Hlen].
  cbn [requested printed set_stdout] in Hlen.
  assert (world_grows w w1) as Hg'
    by (eapply world_grows_trans; [apply world_grows_printed | exact Hg]).
  destruct r1 as [[]|e]; intros [= <- <-].
  - split_and!; [|cbn; lia|auto].
    eapply world_grows_trans; [exact Hg' | apply world_grows_printed].
  - split_and!; [|cbn; lia|auto].
    eapply world_grows_trans; [exact Hg' | apply world_grows_printed].
  - split_and!; [done|lia|eauto].
Qed.

(** X9.  The accounting of the loop.  Whatever the loop does, it keeps
    every file that exists, and it makes at most one request for each URL.
    When it returns, neither counter has gone down, the two counters have
    grown by at most the number of URLs together, and the requests and the
    skips together are at most the number of URLs: a URL that is counted as
    skipped was not requested. *)
Theorem X9_loop_accounting (output_dir : str) (total : nat)
    (urls : list str) (i s k : nat) (w : World)
    (res : outcome (nat * nat)) (w' : World) :
  download_loop output_dir total i urls (s, k) w = (res, w') →
  world_grows w w'
  ∧ (length (requested w') ≤ length (requested w) + length urls)%nat
  ∧ ∀ s' k', res = Return (s', k') →
      (s ≤ s')%nat ∧ (k ≤ k')%nat
      ∧ (s' + k' ≤ s + k + length urls)%nat
      ∧ (length (requested w') + k' ≤ length (requested w) + k + length urls)%nat.
Proof.
  revert i s k w. induction urls as [|url rest IH]; intros i s k w.
  - intros [= <- <-]. split_and!; [apply world_grows_refl|cbn; lia|].
    intros s' k' [= <- <-]. cbn. lia.
  - cbn [download_loop]. rewrite M_bind_unfold.
    destruct (download_step _ _ _ _ _ w) as [r1 w1] eqn:Hstep.
    apply download_step_effects in Hstep as (Hg & Hlen & Hcases).
    destruct r1 as [[s1 k1]|e].
    2:{ intros [= <- <-]. split_and!; [done|cbn; lia|done]. }
    intros Hrest. apply IH in Hrest as (Hg' & Hlen' & Hcount).
    split_and!; [by eapply world_grows_trans|cbn; lia|].
    intros s' k' ->. specialize (Hcount s' k' eq_refl). cbn [length].
    destruct Hcases as [[e [=]]|[([= -> ->] & Hreq & _)|[[= -> ->]|[= -> ->]]]];
      try rewrite Hreq in *; lia.
Qed.

(** X10.  An exception that does not derive from [Exception], such as
    [KeyboardInterrupt], is not caught: it leaves [download_image] without
    an error line and ends the loop of [main], so that the remaining URLs
    are not processed. *)
Theorem X10_interrupt_ends_the_loop (url output_dir : str)
    (parsed : ParseResult) (filename : str) (e : exn) (total i : nat)
    (rest : list str) (s k : nat) (w0 w1 : World) :
  let w := printed (progress_line total i url) w0 in
  urlparse url [] = Return parsed →
  filename_of url parsed = Return filename →
  fs w0 !! pathlib_join output_dir (basename (path parsed)) = None →
  fs w0 !! os_path_join output_dir filename = None →
  fetch_and_write url filename (os_path_join output_dir filename) w
  = (Raise e, w1) →
  is_Exception e = false →
  download_image url output_dir w = (Raise e, w1)
  ∧ download_loop output_dir total i (url :: rest) (s, k) w0 = (Raise e, w1).
Proof.
  intros w Hparse Hname Hmain Hfile Hraise Hexn.
  assert (download_image url output_dir w = (Raise e, w1)) as Himg.
  { rewrite (download_image_absent _ _ _ _ _ Hparse Hname) by done.
    unfold try_except. by rewrite Hraise, Hexn. }
  split; [done|].
  cbn [download_loop]. rewrite M_bind_unfold, download_step_stages, Hparse.
  cbv zeta. rewrite bool_decide_eq_false_2 by (rewrite Hmain; by intros []).
  fold w. by rewrite Himg.
Qed.


(** ** Files that are there are skipped *)

Lemma join_good_name (output_dir f : str) :
  output_dir ≠ [] → endswith output_dir "/" = false →
  good_name f = true → "/"%char ∉ f →
  os_path_join output_dir f = pathlib_join output_dir f.
Proof.
  intros Hod Hend [Hf Hdot]%andb_true_iff Hslash.
  unfold os_path_join, pathlib_join.
  assert (startswith f "/" = false) as ->.
  { destruct (startswith f "/") eqn:E; [|done].
    apply startswith_prefix in E as [f' ->].
    exfalso. apply Hslash. constructor. }
  rewrite Hend, orb_false_r.
  rewrite (bool_decide_eq_false_2 (output_dir = [])) by done.
  apply negb_true_iff in Hdot. rewrite Hdot, orb_false_r.
  rewrite bool_decide_eq_false_2; [done|]. by intros ->.
Qed.

Lemma filename_of_good (url : str) (parsed : ParseResult) :
  good_name (basename (path parsed)) = true →
  filename_of url parsed = Return (basename (path parsed)).
Proof.
  intros [Hf _]%andb_true_iff. unfold filename_of. by rewrite Hf.
Qed.

Lemma step_skips_present (output_dir : str) (total i : nat) (url : str)
    (parsed : ParseResult) (s k : nat) (w : World) :
  urlparse url [] = Return parsed →
  is_Some (fs w !! pathlib_join output_dir (basename (path parsed))) →
  download_step output_dir total i url (s, k) w
  = (Return (s, k + 1),
     printed (skip_line (basename (path parsed)))
       (printed (progress_line total i url) w)).
Proof.
  intros Hparse Hsome. rewrite download_step_stages, Hparse. cbv zeta.
  by rewrite bool_decide_eq_true_2.
Qed.

Lemma step_counted_file_present (output_dir : str) (total i : nat)
    (url : str) (parsed : ParseResult) (s k s' k' : nat) (w w' : World) :
  output_dir ≠ [] → endswith output_dir "/" = false →
  urlparse url [] = Return parsed →
  good_name (basename (path parsed)) = true →
  download_step output_dir total i url (s, k) w = (Return (s', k'), w') →
  s' + k' = s + k + 1 →
  is_Some (fs w' !! pathlib_join output_dir (basename (path parsed))).
Proof.
  intros Hod Hend Hparse Hgood.
  rewrite download_step_stages, Hparse. cbv zeta.
  destruct (bool_decide _) eqn:Hex.
  { intros [= <- <- <-] _. by apply bool_decide_eq_true in Hex. }
  destruct (download_image _ _ _) as [[[]|e] w1] eqn:Himg; [| |done].
  - intros [= <- <- <-] _. cbn [fs printed set_stdout].
    rewrite <- (join_good_name output_dir) by
      (done || apply basename_no_slash).
    eapply download_image_true_file; [exact Hparse| |exact Himg].
    by apply filename_of_good.
  - intros [= <- <- <-]. lia.
Qed.

(** X11.  The output directory is flat, so covers are told apart by the
    last segment of their path alone: once the step of the loop has
    downloaded one URL, a later step for any URL with the same file name
    finds the file, counts the URL as skipped and does not request it, even
    when the two URLs differ. *)
Theorem X11_same_file_name_is_skipped (output_dir : str) (total i j : nat)
    (url1 url2 : str) (parsed1 parsed2 : ParseResult) (s k s2 k2 : nat)
    (w w1 w2 : World) :
  output_dir ≠ [] → endswith output_dir "/" = false →
  urlparse url1 [] = Return parsed1 →
  urlparse url2 [] = Return parsed2 →
  good_name (basename (path parsed1)) = true →
  basename (path parsed2) = basename (path parsed1) →
  download_step output_dir total i url1 (s, k) w = (Return (s + 1, k), w1) →
  world_grows w1 w2 →
  download_step output_dir total j url2 (s2, k2) w2
  = (Return (s2, k2 + 1),
     printed (skip_line (basename (path parsed1)))
       (printed (progress_line total j url2) w2)).
Proof.
  intros Hod Hend Hp1 Hp2 Hgood Hsame Hstep (Hfs & _).
  eapply step_counted_file_present in Hstep as [n Hn]; [|done..|lia].
  rewrite <- Hsame.
  apply step_skips_present; [done|]. rewrite Hsame. eauto.
Qed.

Lemma download_loop_bound (output_dir : str) (total : nat) (urls : list str)
    (i s k s' k' : nat) (w w' : World) :
  download_loop output_dir total i urls (s, k) w = (Return (s', k'), w') →
  world_grows w w' ∧ (s' + k' ≤ s + k + length urls)%nat.
Proof.
  revert i s k w. induction urls as [|url rest IH]; intros i s k w.
  - intros [= <- <- <-]. split; [apply world_grows_refl|cbn; lia].
  - cbn [download_loop]. rewrite M_bind_unfold.
    destruct (download_step _ _ _ _ _ w) as [[[s1 k1]|e] w1] eqn:Hstep;
      [|done].
    apply download_step_effects in Hstep as (Hg & _ & Hcases).
    intros [Hg' Hle]%IH. split; [by eapply world_grows_trans|].
    cbn [length].
    destruct Hcases as [[e [=]]|[([= -> ->] & _)|[[= -> ->]|[= -> ->]]]]; lia.
Qed.

Lemma file_present_grows (output_dir : str) (w w' : World) (url : str) :
  world_grows w w' →
  file_present output_dir w url → file_present output_dir w' url.
Proof.
  intros (Hfs & _) (parsed & Hp & [n Hn]). exists parsed. eauto.
Qed.

Lemma loop_counted_files_present (output_dir : str) (total : nat)
    (urls : list str) (i s k s' k' : nat) (w w' : World) :
  output_dir ≠ [] → endswith output_dir "/" = false →
  Forall (λ url, names_file url = true) urls →
  download_loop output_dir total i urls (s, k) w = (Return (s', k'), w') →
  s' + k' = s + k + length urls →
  Forall (file_present output_dir w') urls.
Proof.
  intros Hod Hend Hnames. revert i s k w.
  induction Hnames as [|url rest Hname Hnames IH]; intros i s k w; [done|].
  cbn [download_loop]. rewrite M_bind_unfold.
  destruct (download_step _ _ _ _ _ w) as [[[s1 k1]|e] w1] eqn:Hstep; [|done].
  intros Hrest Hsum. cbn [length] in Hsum.
  pose proof (download_loop_bound _ _ _ _ _ _ _ _ _ _ Hrest) as [Hg Hle].
  pose proof (download_step_effects _ _ _ _ _ _ _ _ _ Hstep)
    as (_ & _ & Hcases).
  assert (s1 + k1 = s + k + 1) as Hone
    by (destruct Hcases
          as [[e [=]]|[([= -> ->] & _)|[[= -> ->]|[= -> ->]]]]; lia).
  constructor.
  - unfold names_file in Hname.
    destruct (urlparse url []) as [parsed|] eqn:Hparse; [|done].
    apply (file_present_grows _ w1); [done|]. exists parsed. split; [done|].
    by eapply step_counted_file_present.
  - eapply IH; [exact Hrest|lia].
Qed.

Lemma loop_skips_present (output_dir : str) (total : nat) (urls : list str)
    (i s k : nat) (w : World) :
  Forall (file_present output_dir w) urls →
  ∃ w', download_loop output_dir total i urls (s, k) w
        = (Return (s, k + length urls), w')
        ∧ requested w' = requested w ∧ fs w' = fs w.
Proof.
  revert i k w. induction urls as [|url rest IH]; intros i k w Hall.
  - exists w. cbn. by rewrite Nat.add_0_r.
  - apply Forall_cons in Hall as [(parsed & Hparse & Hsome) Hrest].
    cbn [download_loop]. rewrite M_bind_unfold.
    rewrite (step_skips_present _ _ _ _ _ _ _ _ Hparse Hsome).
    set (w1 := printed _ (printed _ w)).
    destruct (IH (S i) (k + 1) w1) as (w' & Hloop & Hreq & Hfs).
    { eapply Forall_impl; [exact Hrest|]. intros u Hu.
      apply (file_present_grows _ w); [|done].
      eapply world_grows_trans; apply world_grows_printed. }
    exists w'. rewrite Hloop. cbn [length].
    replace (k + 1 + length rest) with (k + S (length rest)) by lia.
    done.
Qed.

(** X12.  A complete run is not repeated.  When the loop has gone over
    URLs that each name a file and has counted every one of them, as
    downloaded or as skipped, then a second run over the same URLs in the
    world that the first one left counts all of them as skipped, makes no
    request and does not touch the files. *)
Theorem X12_second_run_skips_everything (output_dir : str)
    (total total2 : nat) (urls : list str) (i i2 s k s' k' s2 k2 : nat)
    (w w' : World) :
  output_dir ≠ [] → endswith output_dir "/" = false →
  Forall (λ url, names_file url = true) urls →
  download_loop output_dir total i urls (s, k) w = (Return (s', k'), w') →
  s' + k' = s + k + length urls →
  ∃ w'', download_loop output_dir total2 i2 urls (s2, k2) w'
         = (Return (s2, k2 + length urls), w'')
         ∧ requested w'' = requested w'
         ∧ fs w'' = fs w'.
Proof.
  intros Hod Hend Hnames Hrun Hsum.
  apply loop_skips_present.
  by eapply loop_counted_files_present.
Qed.


(** ** More about the de-duplication *)

Lemma unique_loop_sublist (l : list str) (seen : gset str) (acc : list str) :
  ∃ r, (foldl unique_step (seen, acc) l).2 = acc ++ r ∧ r `sublist_of` l.
Proof.
  revert seen acc. induction l as [|x l IH]; intros seen acc.
  - exists []. by rewrite app_nil_r.
  - cbn [foldl]. unfold unique_step at 2.
    destruct (bool_decide (x ∉ seen)).
    + destruct (IH ({[x]} ∪ seen) (acc ++ [x])) as (r & -> & Hr).
      exists (x :: r). rewrite <- app_assoc. split; [done|].
      by apply sublist_skip.
    + destruct (IH seen acc) as (r & -> & Hr).
      exists r. split; [done|]. by apply sublist_cons.
Qed.

Lemma unique_loop_no_duplicates (l : list str) (seen : gset str)
    (acc : list str) :
  (∀ x, x ∈ seen ↔ x ∈ acc) → NoDup (acc ++ l) →
  (foldl unique_step (seen, acc) l).2 = acc ++ l.
Proof.
  revert seen acc. induction l as [|x l IH]; intros seen acc Hseen Hnd.
  - by rewrite app_nil_r.
  - cbn [foldl]. unfold unique_step at 2.
    assert (x ∉ seen) as Hx.
    { rewrite Hseen. apply NoDup_app in Hnd as (_ & Hd & _).
      intros Hx. apply (Hd x Hx). constructor. }
    rewrite bool_decide_eq_true_2 by done.
    rewrite (IH ({[x]} ∪ seen) (acc ++ [x])).
    + by rewrite <- app_assoc.
    + intros y. rewrite elem_of_union, elem_of_singleton, elem_of_app,
        list_elem_of_singleton, Hseen. tauto.
    + by rewrite <- app_assoc.
Qed.

(** X13.  De-duplicating a second time changes nothing; the result is a
    subsequence of the input, so the order of the input is kept; and the
    input comes back unchanged exactly when it has no duplicates. *)
Theorem X13_unique_composes (l : list str) :
  unique (unique l) = unique l
  ∧ unique l `sublist_of` l
  ∧ (unique l = l ↔ NoDup l).
Proof.
  assert (∀ x : str, x ∈ (∅ : gset str) ↔ x ∈ ([] : list str)) as Hempty
    by (intros x; by rewrite elem_of_empty, elem_of_nil).
  assert (NoDup (unique l)) as Hnd
    by (apply unique_loop_invariant; [constructor|done]).
  assert (∀ k : list str, NoDup k → unique k = k) as Hfix
    by (intros k Hk; by apply (unique_loop_no_duplicates k ∅ [])).
  split_and!.
  - by apply Hfix.
  - destruct (unique_loop_sublist l ∅ []) as (r & Hr & Hsub).
    unfold unique. by rewrite Hr.
  - split; [intros <-; done | apply Hfix].
Qed.


(** ** The normalisation loop of [main] *)

Lemma normalize_url_prints_at_most_one_line (url : str) :
  (length (normalize_url url).1 ≤ 1)%nat.
Proof.
  rewrite normalize_url_stages. destruct (resolve url); [|cbn; lia].
  unfold normalize_resolved. destruct (urlparse _ _); [|cbn; lia].
  destruct (negb _); cbn; lia.
Qed.

Lemma normalize_all_returns (raw_urls : list str) (out : list str)
    (l : list str) :
  normalize_all raw_urls = (out, Return l) →
  Forall2 (λ u v, ∃ o, normalize_url u = (o, Return v)) raw_urls l
  ∧ (length out ≤ length raw_urls)%nat.
Proof.
  revert out l. induction raw_urls as [|u rest IH]; intros out l.
  - intros [= <- <-]. split; [constructor|done].
  - cbn [normalize_all].
    pose proof (normalize_url_prints_at_most_one_line u) as Hone.
    destruct (normalize_url u) as [o [v|e]] eqn:Hu; [|done].
    destruct (normalize_all rest) as [o' [l'|e]]; [|done].
    rewrite bind_Return. intros [= <- <-].
    destruct (IH o' l' eq_refl) as [Hall Hlen].
    split; [constructor; eauto|].
    rewrite length_app. cbn in *. lia.
Qed.

(** X14.  The URL collection of [main].  When the normalisation loop
    returns, the de-duplicated list holds exactly the values that
    [normalize_url] returns for the raw hrefs, each of them once, and at
    most one warning per href was printed. *)
Theorem X14_url_collection (raw_urls : list str) (out : list str)
    (normalized_urls : list str) :
  normalize_all raw_urls = (out, Return normalized_urls) →
  length normalized_urls = length raw_urls
  ∧ (length out ≤ length raw_urls)%nat
  ∧ NoDup (unique normalized_urls)
  ∧ ∀ v, v ∈ unique normalized_urls
         ↔ ∃ u o, u ∈ raw_urls ∧ normalize_url u = (o, Return v).
Proof.
  intros [Hall Hlen]%normalize_all_returns.
  assert (∀ x : str, x ∈ (∅ : gset str) ↔ x ∈ ([] : list str)) as Hempty
    by (intros x; by rewrite elem_of_empty, elem_of_nil).
  destruct (unique_loop_invariant normalized_urls ∅ []) as [Hnd Hin];
    [constructor|done|].
  split_and!; [symmetry; by eapply Forall2_length|done|done|].
  intros v. unfold unique. rewrite Hin, elem_of_nil. split.
  - intros [[]|Hv].
    apply list_elem_of_lookup in Hv as [i Hi].
    destruct (Forall2_lookup_r _ _ _ _ _ Hall Hi) as (u & Hu & o & Ho).
    exists u, o. split; [|done]. by eapply list_elem_of_lookup_2.
  - intros (u & o & Hu & Ho). right.
    apply list_elem_of_lookup in Hu as [i Hi].
    destruct (Forall2_lookup_l _ _ _ _ _ Hall Hi) as (v' & Hv' & o' & Ho').
    rewrite Ho in Ho'. injection Ho' as _ ->.
    by eapply list_elem_of_lookup_2.
Qed.

(** X15.  The normalisation loop does not fail softly: when it raises, it
    raises what [normalize_url] raised for the first raw href on which it
    raises, and the hrefs after that one are not looked at. *)
Theorem X15_normalisation_stops_at_first_error (raw_urls : list str)
    (out : list str) (e : exn) :
  normalize_all raw_urls = (out, Raise e) →
  ∃ before u after,
    raw_urls = before ++ u :: after
    ∧ (normalize_url u).2 = Raise e
    ∧ Forall (λ u', ∃ v, (normalize_url u').2 = Return v) before
    ∧ out = (normalize_all before).1 ++ (normalize_url u).1.
Proof.
  revert out. induction raw_urls as [|u rest IH]; intros out; [done|].
  cbn [normalize_all].
  destruct (normalize_url u) as [o [v|e']] eqn:Hu.
  - destruct (normalize_all rest) as [o' [l'|e']] eqn:Hrest; [done|].
    rewrite bind_Raise. intros [= <- <-].
    destruct (IH o' eq_refl)
      as (before & u' & after & -> & Hu' & Hbefore & ->).
    exists (u :: before), u', after. split_and!; [done|done| |].
    + constructor; [|done]. rewrite Hu. by eauto.
    + cbn [normalize_all]. rewrite Hu.
      destruct (normalize_all before) as [ob rb]. cbn.
      by rewrite app_assoc.
  - intros [= <- <-]. exists [], u, rest. rewrite Hu. by split_and!.
Qed.


(** ** The characters of the path *)

Lemma drop_subseteq (s : str) n : drop n s ⊆ s.
Proof. apply sublist_subseteq, sublist_drop. Qed.

Lemma prefix_list_subseteq (a s : str) : a `prefix_of` s → a ⊆ s.
Proof. intros [k ->] x Hx. apply elem_of_app. auto. Qed.

Lemma remove_char_elem_of (s : str) (c x : ascii) :
  x ∈ remove_char s c ↔ x ∈ s ∧ x ≠ c.
Proof.
  induction s as [|d s IH]; simpl.
  - rewrite elem_of_nil. tauto.
  - destruct (Ascii.eqb_spec d c) as [->|Hne].
    + rewrite IH, elem_of_cons. split; [tauto|].
      intros [[->|?] ?]; [done|tauto].
    + rewrite !elem_of_cons, IH. split; [|tauto].
      intros [->|?]; tauto.
Qed.

Lemma remove_unsafe_elem_of (s : str) (x : ascii) :
  x ∈ foldl remove_char s UNSAFE_URL_BYTES_TO_REMOVE →
  x ∈ s ∧ x ∉ UNSAFE_URL_BYTES_TO_REMOVE.
Proof.
  cbn. rewrite !remove_char_elem_of. unfold UNSAFE_URL_BYTES_TO_REMOVE.
  rewrite !not_elem_of_cons. intros (((? & ?) & ?) & ?). split_and!; try done.
  apply not_elem_of_nil.
Qed.

Lemma urlsplit_path_subseteq (url sch : str) (s n p q f : str) :
  urlsplit url sch = Return (s, n, p, q, f) →
  p ⊆ foldl remove_char (lstrip url WHATWG_C0_CONTROL_OR_SPACE)
            UNSAFE_URL_BYTES_TO_REMOVE.
Proof.
  unfold urlsplit. cbv zeta.
  set (u := foldl remove_char (lstrip url _) _).
  match goal with
  | |- context [let '(a, b) := ?X in _] =>
      assert (X.2 ⊆ u) as Hscheme;
      [|destruct X as [sch' url']; cbn [snd] in Hscheme]
  end.
  { destruct (find u ":") as [[|i]|]; [done| |done].
    destruct u as [|c u']; [done|].
    destruct (_ && _); [|done]. apply drop_subseteq. }
  match goal with
  | |- (?E ≫= _) = _ → _ =>
      assert (∀ net url0, E = Return (net, url0) → url0 ⊆ url') as Hnet;
      [|destruct E as [[net url0]|e]; [|done];
        specialize (Hnet net url0 eq_refl)]
  end.
  { intros net url0. destruct (bool_decide _); [|by intros [= <- <-]].
    unfold splitnetloc. cbv zeta.
    destruct (_ || _); [done|].
    destruct (_ && _).
    - destruct (check_bracketed_netloc _); [|done].
      rewrite bind_Return. intros [= <- <-]. apply drop_subseteq.
    - intros [= <- <-]. apply drop_subseteq. }
  rewrite bind_Return.
  change (if contains url0 "#" then _ else _) with (split_once url0 "#").
  pose proof (split_once_first url0 "#") as [_ H2]; [done|].
  destruct (split_once url0 "#") as [url1 frag]. cbn [fst] in H2.
  change (if contains url1 "?" then _ else _) with (split_once url1 "?").
  pose proof (split_once_first url1 "?") as [_ H4]; [done|].
  destruct (split_once url1 "?") as [url2 qry]. cbn [fst] in H4.
  intros [= <- <- <- <- <-].
  apply prefix_list_subseteq in H2, H4.
  do 3 (etrans; [eassumption|]). done.
Qed.

Lemma urlparse_path_no_unsafe (url sch : str) (parsed : ParseResult)
    (c : ascii) :
  urlparse url sch = Return parsed →
  c ∈ UNSAFE_URL_BYTES_TO_REMOVE → c ∉ path parsed.
Proof.
  unfold urlparse.
  destruct (urlsplit url sch) as [[[[[s n] p] q] f]|e] eqn:E; [|done].
  rewrite bind_Return. apply urlsplit_path_subseteq in E.
  assert (path parsed ⊆ p → c ∈ UNSAFE_URL_BYTES_TO_REMOVE → c ∉ path parsed)
    as Hsub.
  { intros Hp Hc Hin. apply Hp, E, remove_unsafe_elem_of in Hin as [_ Hin].
    done. }
  destruct (bool_decide _ && _).
  - pose proof (splitparams_prefix p) as Hp.
    destruct (splitparams p) as [p' prm]. intros [= <-]. cbn [path fst] in *.
    by apply Hsub, prefix_list_subseteq.
  - intros [= <-]. by apply Hsub.
Qed.

Lemma path_after_of_subseteq (pth pa : str) :
  path_after_of pth = Return pa → pa ⊆ pth.
Proof.
  unfold path_after_of.
  destruct (contains pth marker) eqn:Hm.
  2:{ by rewrite split_no_sep. }
  destruct (split_second pth marker) as (x & -> & _ & a & b & E); [done..|].
  rewrite bind_Return.
  destruct (split_first x "?") as (y & -> & Hy). rewrite bind_Return.
  destruct (split_first y "#") as (z & -> & Hz). rewrite bind_Return.
  assert (z ⊆ pth) as Hzp.
  { apply prefix_list_subseteq in Hy, Hz.
    etrans; [exact Hz|]. etrans; [exact Hy|].
    rewrite E. intros c Hc. rewrite !elem_of_app. auto. }
  destruct (startswith z public_prefix); intros [= <-]; [|exact Hzp].
  etrans; [apply drop_subseteq | exact Hzp].
Qed.


Lemma endswith_char_elem_of (s : str) (c : ascii) :
  endswith s [c] = true → c ∈ s.
Proof.
  rewrite endswith_suffix. intros [k ->]. apply elem_of_app. right.
  constructor.
Qed.

Lemma re_sub_ext_no_extension (s : str) :
  endswith s [newline] = false →
  Forall (λ ext : str, iendswith_ext s ext = false) image_extensions →
  re_sub_ext s = s.
Proof.
  intros Hnl Hext. unfold re_sub_ext. rewrite Hnl.
  unfold image_extensions in *.
  apply Forall_cons in Hext as [H1 Hext].
  apply Forall_cons in Hext as [H2 Hext].
  apply Forall_cons in Hext as [H3 Hext].
  apply Forall_cons in Hext as [H4 _].
  cbn [List.find]. by rewrite H1, H2, H3, H4.
Qed.

Lemma ensure_jpg_webp_no_extension (s : str) :
  endswith s [newline] = false →
  Forall (λ ext : str, iendswith_ext s ext = false) image_extensions →
  ensure_jpg_webp s = s ++ ".jpg.webp".
Proof.
  intros Hnl Hext.
  assert (iendswith_ext s "webp" = false) as Hwebp.
  { eapply Forall_forall in Hext; [exact Hext|].
    unfold image_extensions. rewrite !elem_of_cons. tauto. }
  assert (endswith s ".webp" = false) as Hw.
  { destruct (endswith s ".webp") eqn:E; [|done].
    apply endswith_lower in E. unfold iendswith_ext in Hwebp.
    transitivity (endswith (lower s) ("." ++ "webp"));
      [symmetry; exact E | exact Hwebp]. }
  assert (endswith s ".jpg.webp" = false) as Hjw.
  { destruct (endswith s ".jpg.webp") eqn:E; [|done].
    rewrite <- Hw. symmetry. apply endswith_suffix.
    apply endswith_suffix in E. etrans; [|exact E]. by exists (".jpg" : str). }
  unfold ensure_jpg_webp. rewrite Hjw, Hw.
  by rewrite re_sub_ext_no_extension.
Qed.

(** X16.  A file name after the marker that ends in none of the four
    image extensions, whatever the case (cover.gif, or a name with no dot),
    is kept whole: the result is the prefix, that name, and [.jpg.webp]
    after it.  No condition on line ends is needed, since a parsed path
    holds no tab, carriage return or line feed. *)
Theorem X16_other_extension_is_kept
    (url abs : str) (parsed : ParseResult) (pa : str) :
  resolve url = Return abs →
  urlparse abs [] = Return parsed →
  contains (path parsed) marker = true →
  path_after_of (path parsed) = Return pa →
  Forall (λ ext : str, endswith (lower pa) ("." ++ ext) = false)
         image_extensions →
  normalize_url url = ([], Return (canonical_prefix ++ pa ++ ".jpg.webp")).
Proof.
  intros Hres Hparse Hm Hpa Hext.
  rewrite normalize_url_stages, Hres. unfold normalize_resolved.
  rewrite Hparse, Hm, Hpa, bind_Return. cbn [negb].
  rewrite ensure_jpg_webp_no_extension; [done| |exact Hext].
  destruct (endswith pa [newline]) eqn:E; [|done].
  apply endswith_char_elem_of, (path_after_of_subseteq _ _ Hpa) in E.
  exfalso. revert E. apply (urlparse_path_no_unsafe _ _ _ _ Hparse).
  unfold UNSAFE_URL_BYTES_TO_REMOVE. rewrite !elem_of_cons. tauto.
Qed.


(** X17.  What [True] from [download_image] means.  When the call returns
    [True], the URL has parsed, a file name has been derived from it, and
    the path joined from the output directory and that name exists
    afterwards: either it existed before, as a file or as a directory, and
    then nothing was requested and the file system is as it was; or it did
    not exist, one request was made, and the path now is a file that holds
    the content of the response.  So [True] does not say that a file was
    downloaded, nor that the path is a file. *)
Theorem X17_true_means_path_exists (url output_dir : str) (w w' : World) :
  download_image url output_dir w = (Return true, w') →
  ∃ parsed filename,
    urlparse url [] = Return parsed
    ∧ filename_of url parsed = Return filename
    ∧ ((∃ n, fs w !! os_path_join output_dir filename = Some n
             ∧ fs w' = fs w ∧ requested w' = requested w)
       ∨ (fs w !! os_path_join output_dir filename = None
          ∧ ∃ r, net w (requested w) url = Return r
                 ∧ requested w' = requested w ++ [url]
                 ∧ fs w' = <[os_path_join output_dir filename
                             := File (content r)]> (fs w))).
Proof.
  rewrite download_image_stages.
  destruct (urlparse url []) as [parsed|e] eqn:Hparse; [|done].
  destruct (filename_of url parsed) as [filename|e] eqn:Hname; [|done].
  cbv zeta. intros H. exists parsed, filename. split_and!; [done..|].
  destruct (bool_decide _) eqn:Hex.
  { injection H as <-. apply bool_decide_eq_true in Hex as [n Hn].
    left. by exists n. }
  apply bool_decide_eq_false in Hex.
  assert (fs w !! os_path_join output_dir filename = None) as Hnone
    by (by apply eq_None_not_Some).
  right. split; [done|]. revert H.
  unfold try_except. rewrite fetch_and_write_stages. cbv zeta.
  destruct (net w (requested w) url) as [r|e].
  2:{ by destruct (is_Exception e). }
  destruct (raise_for_status_cases r (after_request url filename w))
    as [[_ ->]|[_ [msg ->]]]; [|done].
  unfold write_file. destruct (open_error _ _) as [e|].
  { by destruct (is_Exception e). }
  destruct (write_error _ _ _) as [e|].
  { by destruct (is_Exception e). }
  intros [= <-]. by exists r.
Qed.

(** X18.  The summary of a run.  When the download step of [main] returns,
    it has printed its heading first and its summary last, the two numbers
    of the summary are together at most the number of URLs, and every file
    that was there before the run is there unchanged. *)
Theorem X18_summary_of_a_run (unique_urls : list str) (w w' : World) :
  download_all unique_urls w = (Return (), w') →
  ∃ (s k : nat) (lines : list str),
    stdout w'
    = stdout w
        ++ [(["010"%char] ++ "Step 3: Downloading images to " ++ "output"
               ++ "..." : str)]
        ++ lines
        ++ [(["010"%char] ++ "Done! Downloaded " ++ str_of_nat s
               ++ " new images, skipped " ++ str_of_nat k
               ++ " existing images." : str)]
    ∧ (s + k ≤ length unique_urls)%nat
    ∧ ∀ p n, fs w !! p = Some n → fs w' !! p = Some n.
Proof.
  unfold download_all. cbv zeta. rewrite M_bind_unfold. unfold print at 1.
  rewrite M_bind_unfold.
  destruct (download_loop _ _ _ _ _ _) as [[[s k]|e] w1] eqn:Hloop; [|done].
  apply download_loop_bound in Hloop as [(Hfs & _ & [lines Hout] & _) Hle].
  unfold print. intros [= <-]. exists s, k, lines.
  cbn [stdout fs set_stdout fst snd] in *. split_and!.
  - rewrite Hout. by rewrite <- !app_assoc.
  - lia.
  - exact Hfs.
Qed.


(** ** A path in which the marker occurs once *)










(** ** Normalising a second time *)

Lemma clean_not_elem (s : str) (c : ascii) :
  clean s = true →
  char_in c ("?#" ++ UNSAFE_URL_BYTES_TO_REMOVE) = true → c ∉ s.
Proof.
  unfold clean. rewrite forallb_forall. intros H Hc Hin.
  apply list_elem_of_In, H in Hin. by rewrite Hc in Hin.
Qed.

Lemma clean_intro (s : str) :
  (∀ c, c ∈ s → char_in c ("?#" ++ UNSAFE_URL_BYTES_TO_REMOVE) = false) →
  clean s = true.
Proof.
  intros H. unfold clean. apply forallb_forall. intros c Hc%list_elem_of_In.
  by rewrite H.
Qed.

Lemma clean_app (a b : str) : clean (a ++ b) = clean a && clean b.
Proof. apply forallb_app. Qed.

Lemma clean_subseteq (a b : str) : a ⊆ b → clean b = true → clean a = true.
Proof.
  intros Hab Hb. apply clean_intro. intros c Hc%Hab.
  destruct (char_in c _) eqn:E; [|done].
  by destruct (clean_not_elem b c Hb E).
Qed.

Lemma rfind_char_in (s : str) (c : ascii) :
  c ∈ s → ∃ i, rfind s [c] = Some i.
Proof.
  intros Hc. destruct (rfind s [c]) as [i|] eqn:E; [by exists i|].
  by apply rfind_char_None in E.
Qed.

Lemma rfind_app_Some (a s sub : str) i :
  rfind s sub = Some i → rfind (a ++ s) sub = Some (length a + i).
Proof.
  intros H. induction a as [|x a IH]; [done|].
  cbn [app rfind length]. by rewrite IH.
Qed.

Lemma rfind_char_at (s : str) (c : ascii) i :
  rfind s [c] = Some i → drop i s = c :: drop (S i) s.
Proof.
  revert i. induction s as [|x s IH]; intros i; [done|].
  cbn [rfind]. destruct (rfind s [c]) as [j|].
  - intros [= <-]. cbn [drop]. by apply IH.
  - cbn. destruct (Ascii.eqb_spec c x) as [->|]; [|done].
    by intros [= <-].
Qed.

Lemma basename_app (a p : str) :
  "/"%char ∈ p → basename (a ++ p) = basename p.
Proof.
  intros [i Hi]%rfind_char_in. unfold basename.
  change ("/" : str) with ["/"%char].
  rewrite (rfind_app_Some a p _ i Hi), Hi.
  rewrite <- Nat.add_assoc. apply drop_app_add.
Qed.

(** The parameters are split off at a [;] of the last segment only. *)
Lemma splitparams_last_segment (p : str) :
  "/"%char ∈ p → ";"%char ∉ basename p → splitparams p = (p, []).
Proof.
  intros Hslash Hsemi. unfold splitparams.
  change ("/" : str) with ["/"%char]. change (";" : str) with [";"%char].
  rewrite (contains_char_true p "/") by done.
  destruct (rfind_char_in p "/" Hslash) as [i Hi].
  unfold basename in Hsemi. change ("/" : str) with ["/"%char] in Hsemi.
  rewrite Hi in Hsemi. rewrite Hi. cbn [default]. unfold find_from, id.
  rewrite (rfind_char_at p "/" i Hi).
  rewrite (find_char_cons _ ";" "/") by discriminate.
  replace (i + 1) with (S i) in Hsemi by lia.
  apply contains_char_false, find_None in Hsemi. by rewrite Hsemi.
Qed.

(** A URL of the fixed host whose path is clean and has no [;] in its last
    segment is parsed into that path, with nothing else. *)
Lemma urlparse_clean (tail : str) :
  clean tail = true → ";"%char ∉ basename ("/" ++ tail) →
  urlparse ("https://gameinformer.com/" ++ tail) []
  = Return (mkParseResult "https" "gameinformer.com" ("/" ++ tail) [] [] []).
Proof.
  intros Hc Hsemi.
  pose proof (clean_not_elem tail "009" Hc eq_refl) as Htab.
  pose proof (clean_not_elem tail "013" Hc eq_refl) as Hcr.
  pose proof (clean_not_elem tail newline Hc eq_refl) as Hnl.
  pose proof (clean_not_elem tail "?" Hc eq_refl) as Hq.
  pose proof (clean_not_elem tail "#" Hc eq_refl) as Hf.
  unfold urlparse. rewrite urlsplit_fixed_host. cbv zeta.
  assert (foldl remove_char tail UNSAFE_URL_BYTES_TO_REMOVE = tail) as ->.
  { cbn. by rewrite (remove_char_id tail "009"), (remove_char_id tail "013"),
      (remove_char_id tail newline). }
  assert (split_once ("/" ++ tail) "#" = ("/" ++ tail, [])) as ->.
  { unfold split_once.
    change (contains ("/" ++ tail) "#") with (contains tail ["#"%char]).
    by rewrite contains_char_false. }
  assert (split_once ("/" ++ tail) "?" = ("/" ++ tail, [])) as ->.
  { unfold split_once.
    change (contains ("/" ++ tail) "?") with (contains tail ["?"%char]).
    by rewrite contains_char_false. }
  rewrite bind_Return. cbv beta iota.
  destruct (bool_decide _ && contains ("/" ++ tail) ";"); [|done].
  rewrite splitparams_last_segment; [done| |done].
  constructor.
Qed.

(** A URL under the canonical prefix is a fixed point of [normalize_url]
    when what follows the prefix is clean, ends in [.jpg.webp], has no [;]
    in the last segment and brings no second marker. *)
Lemma normalize_url_canonical_fixed (tail : str) :
  clean tail = true →
  ";"%char ∉ basename (canonical_prefix ++ tail) →
  contains (public_prefix ++ tail) marker = false →
  endswith tail ".jpg.webp" = true →
  normalize_url (canonical_prefix ++ tail)
  = ([], Return (canonical_prefix ++ tail)).
Proof.
  intros Hc Hsemi Hm Hend. rewrite normalize_url_stages.
  assert (resolve (canonical_prefix ++ tail)
          = Return (canonical_prefix ++ tail)) as -> by reflexivity.
  apply (normalize_resolved_canonical_path _
           (mkParseResult "https" "gameinformer.com"
              (marker ++ public_prefix ++ tail) [] [] []));
    [|done..].
  change (canonical_prefix ++ tail)
    with ("https://gameinformer.com/"
            ++ ("sites/default/files/" ++ public_prefix) ++ tail).
  change (marker ++ public_prefix ++ tail)
    with ("/" ++ ("sites/default/files/" ++ public_prefix) ++ tail).
  apply urlparse_clean.
  - by rewrite clean_app, Hc.
  - change (canonical_prefix ++ tail)
      with ("https://gameinformer.com"
              ++ "/" ++ ("sites/default/files/" ++ public_prefix) ++ tail)
      in Hsemi.
    rewrite basename_app in Hsemi; [done|constructor].
Qed.

(** The resolved URL starts with [http], or is the input itself. *)
Lemma resolve_http_or_same (url abs : str) :
  resolve url = Return abs → startswith abs "http" = true ∨ abs = url.
Proof.
  unfold resolve. destruct (startswith url "http") eqn:Hh; cbn [negb].
  { intros [= <-]. by left. }
  unfold urljoin.
  assert (negb (truthy "https://gameinformer.com") = false) as ->
    by reflexivity.
  destruct (negb (truthy url)).
  { intros [= <-]. by left. }
  assert (urlparse "https://gameinformer.com" []
          = Return (mkParseResult "https" "gameinformer.com" [] [] [] []))
    as -> by reflexivity.
  rewrite bind_Return. cbn [scheme netloc path params query fragment].
  destruct (urlparse url "https") as [u|e]; [|done].
  rewrite bind_Return.
  destruct (bool_decide (scheme u = "https")) eqn:Hs; cbn [negb orb].
  2:{ intros [= <-]. by right. }
  apply bool_decide_eq_true in Hs.
  destruct (negb (bool_decide (scheme u ∈ uses_relative))).
  { intros [= <-]. by right. }
  assert (∀ p, scheme p = "https" → startswith (urlunparse p) "http" = true)
    as Hun.
  { intros p Hp. unfold urlunparse, urlunsplit. cbv zeta. rewrite Hp.
    cbn [truthy]. by destruct (truthy (query p)), (truthy (fragment p)). }
  cbv zeta.
  repeat match goal with
         | |- (if ?b then _ else _) = _ → _ => destruct b
         end;
    intros [= <-]; left; by apply Hun.
Qed.

(** Normalising the resolved URL is normalising the URL. *)
Lemma normalize_url_resolved (url abs : str) :
  resolve url = Return abs → normalize_url abs = normalize_url url.
Proof.
  intros H. rewrite (normalize_url_stages url), H.
  destruct (resolve_http_or_same _ _ H) as [Hh| ->].
  - rewrite normalize_url_stages. unfold resolve. by rewrite Hh.
  - by rewrite normalize_url_stages, H.
Qed.

Lemma re_sub_ext_subseteq (s : str) : re_sub_ext s ⊆ s.
Proof.
  unfold re_sub_ext. destruct (endswith s [newline]) eqn:E.
  - destruct (List.find _ _); [|done].
    intros c [Hc|Hc%list_elem_of_singleton]%elem_of_app.
    + eapply sublist_subseteq; [|exact Hc].
      etrans; apply sublist_take.
    + subst c. by apply endswith_char_elem_of.
  - destruct (List.find _ _); [|done].
    rewrite app_nil_r. apply sublist_subseteq, sublist_take.
Qed.

Lemma ensure_jpg_webp_subseteq (pa : str) :
  ensure_jpg_webp pa ⊆ pa ++ ".jpg.webp".
Proof.
  unfold ensure_jpg_webp. intros c.
  destruct (endswith pa ".jpg.webp"); [|destruct (endswith pa ".webp")];
    rewrite ?elem_of_app; [auto|intros [Hc|Hc]..]; auto; left.
  - eapply sublist_subseteq; [apply sublist_take | exact Hc].
  - by apply re_sub_ext_subseteq.
Qed.

(** A parsed path is clean. *)
Lemma urlparse_path_clean (url sch : str) (parsed : ParseResult) :
  urlparse url sch = Return parsed → clean (path parsed) = true.
Proof.
  intros H. pose proof (urlparse_path_no_delimiter _ _ _ H) as [Hf Hq].
  apply clean_intro. intros c Hc.
  destruct (char_in c _) eqn:E; [|done]. exfalso.
  apply char_in_elem_of in E.
  change ("?#" ++ UNSAFE_URL_BYTES_TO_REMOVE)
    with ("?"%char :: "#"%char :: UNSAFE_URL_BYTES_TO_REMOVE) in E.
  apply elem_of_cons in E as [->|E]; [|apply elem_of_cons in E as [->|E]].
  - apply contains_char_true in Hc.
    change (["?"%char]) with ("?" : str) in Hc. congruence.
  - apply contains_char_true in Hc.
    change (["#"%char]) with ("#" : str) in Hc. congruence.
  - revert Hc. by apply (urlparse_path_no_unsafe _ _ _ _ H).
Qed.

(** *** A URL under the canonical prefix *)

Lemma contains_public_prefix_marker (t : str) :
  contains (public_prefix ++ t) marker
  = startswith t files_dir || contains t marker.
Proof. reflexivity. Qed.

Lemma find_lookup (s : str) (c : ascii) i :
  find s [c] = Some i → s !! i = Some c.
Proof.
  intros H%find_Some_split. rewrite H.
  rewrite lookup_app_r by (rewrite length_take; lia).
  rewrite length_take.
  assert (i ≤ length s)%nat as Hle.
  { apply (f_equal length) in H. rewrite !length_app, length_take in H.
    cbn in H. lia. }
  by replace (i - i `min` length s) with 0 by lia.
Qed.

(** [_splitparams] keeps a directory that holds no [;]. *)
Lemma splitparams_keeps_dir (a q : str) :
  "/"%char ∈ a → ";"%char ∉ a → ∃ q', (splitparams (a ++ q)).1 = a ++ q'.
Proof.
  intros Hslash Ha.
  assert (∀ i, (a ++ q) !! i = Some ";"%char →
               take i (a ++ q) = a ++ take (i - length a) q) as Htake.
  { intros i Hi. destruct (decide (i < length a)%nat) as [Hlt|Hge].
    - rewrite lookup_app_l in Hi by done.
      by apply list_elem_of_lookup_2 in Hi.
    - rewrite take_app. by rewrite take_ge by lia. }
  unfold splitparams.
  change (";" : str) with [";"%char]. change ("/" : str) with ["/"%char].
  rewrite (contains_char_true (a ++ q) "/")
    by (apply elem_of_app; by left).
  unfold find_from.
  destruct (find (drop _ (a ++ q)) [";"%char]) as [i|] eqn:E;
    [|by exists q].
  cbn [fmap option_fmap option_map fst].
  apply find_lookup in E. rewrite lookup_drop in E.
  eexists. by apply Htake.
Qed.

(** The path of a URL under the canonical prefix begins with the marker and
    the prefix [styles/no_compression/public/]. *)
Lemma urlparse_under_prefix (X : str) :
  ∃ parsed X', urlparse (canonical_prefix ++ X) [] = Return parsed
               ∧ path parsed = marker ++ public_prefix ++ X'.
Proof.
  unfold urlparse.
  change (canonical_prefix ++ X)
    with ("https://gameinformer.com/"
            ++ ("sites/default/files/" ++ public_prefix) ++ X).
  rewrite urlsplit_fixed_host. cbv zeta.
  rewrite remove_unsafe_app.
  assert (foldl remove_char ("sites/default/files/" ++ public_prefix)
                UNSAFE_URL_BYTES_TO_REMOVE
          = "sites/default/files/" ++ public_prefix) as -> by reflexivity.
  generalize (foldl remove_char X UNSAFE_URL_BYTES_TO_REMOVE). intros X1.
  change ("/" ++ ("sites/default/files/" ++ public_prefix) ++ X1)
    with ((marker ++ public_prefix) ++ X1).
  assert (∀ c : ascii, char_in c "?#;" = true → c ∉ marker ++ public_prefix)
    as Hdir.
  { intros c Hc Hin%char_in_elem_of.
    apply char_in_elem_of in Hc. cbn in Hc. rewrite !elem_of_cons in Hc.
    destruct Hc as [->|[->|[->|Hc]]]; [by vm_compute in Hin..|].
    by apply elem_of_nil in Hc. }
  destruct (split_once_keeps_start (marker ++ public_prefix) X1 "#")
    as [X2 H2]; [by apply Hdir|].
  change (["#"%char]) with ("#" : str) in H2.
  destruct (split_once ((marker ++ public_prefix) ++ X1) "#") as [u1 frag].
  cbn [fst] in H2. subst u1.
  destruct (split_once_keeps_start (marker ++ public_prefix) X2 "?")
    as [X3 H3]; [by apply Hdir|].
  change (["?"%char]) with ("?" : str) in H3.
  destruct (split_once ((marker ++ public_prefix) ++ X2) "?") as [u2 qry].
  cbn [fst] in H3. subst u2.
  rewrite bind_Return. cbv beta iota.
  destruct (bool_decide _ && _).
  - destruct (splitparams_keeps_dir (marker ++ public_prefix) X3)
      as [X4 H4]; [constructor | by apply Hdir|].
    destruct (splitparams ((marker ++ public_prefix) ++ X3)) as [u3 prm].
    cbn [fst] in H4. subst u3.
    eexists _, X4. split; [done|]. cbn [path]. by rewrite <- app_assoc.
  - eexists _, X3. split; [done|]. cbn [path]. by rewrite <- app_assoc.
Qed.

Lemma prefix_app_head (S A e : str) :
  S `prefix_of` A ++ e →
  S `prefix_of` A ∨ ∃ x e', e = x :: e' ∧ x ∈ S.
Proof.
  revert S. induction A as [|a A IH]; intros [|s0 S] H.
  - left. apply prefix_nil.
  - right. destruct e as [|x e']; [by apply prefix_nil_not in H|].
    apply prefix_cons_inv_1 in H as ->. exists x, e'. split; [done|].
    constructor.
  - left. apply prefix_nil.
  - cbn [app] in H. pose proof (prefix_cons_inv_1 _ _ _ _ H) as ->.
    apply prefix_cons_inv_2, IH in H as [H|(x & e' & -> & Hx)].
    + left. by apply prefix_cons.
    + right. exists x, e'. split; [done|]. by constructor.
Qed.

(** The extension step does not make a path begin with
    [sites/default/files/]. *)
Lemma ensure_jpg_webp_files_dir (pa : str) :
  startswith pa files_dir = false →
  startswith (ensure_jpg_webp pa) files_dir = false.
Proof.
  intros Hpa.
  assert (∀ A e : str, A `prefix_of` pa →
            (match e with [] => True | x :: _ => x ∉ files_dir end) →
            startswith (A ++ e) files_dir = false) as Hcase.
  { intros A e HA He. destruct (startswith (A ++ e) files_dir) eqn:E; [|done].
    apply startswith_prefix, prefix_app_head in E as [E|(x & e' & -> & Hx)].
    - assert (startswith pa files_dir = true) as Hp
        by (apply startswith_prefix; by etrans).
      congruence.
    - done. }
  unfold ensure_jpg_webp.
  destruct (endswith pa ".jpg.webp"); [done|].
  destruct (endswith pa ".webp").
  - apply Hcase; [apply prefix_take|].
    intros H%char_in_elem_of. by vm_compute in H.
  - destruct (re_sub_ext_shape pa) as (k & nl & -> & [->| ->]).
    + rewrite app_nil_r. apply Hcase; [apply prefix_take|].
      intros H%char_in_elem_of. by vm_compute in H.
    + rewrite <- app_assoc. apply Hcase; [apply prefix_take|].
      intros H%char_in_elem_of. by vm_compute in H.
Qed.

(** Under the canonical prefix [normalize_url] returns, silently, a URL
    under the prefix that is clean, ends in [.jpg.webp] and holds no second
    marker. *)
Lemma normalize_url_under_prefix (X : str) :
  ∃ rest, normalize_url (canonical_prefix ++ X)
          = ([], Return (canonical_prefix ++ rest))
          ∧ clean rest = true
          ∧ endswith rest ".jpg.webp" = true
          ∧ contains (public_prefix ++ rest) marker = false.
Proof.
  destruct (urlparse_under_prefix X) as (parsed & X' & Hparse & Hpath).
  assert (contains (path parsed) marker = true) as Hm
    by (by rewrite Hpath).
  destruct (path_after_of_no_marker _ Hm) as (pa & Hpa & Hpam).
  exists (ensure_jpg_webp pa).
  assert (resolve (canonical_prefix ++ X) = Return (canonical_prefix ++ X))
    as Hres by reflexivity.
  split; [by apply (normalize_url_path_after _ (canonical_prefix ++ X) parsed)|].
  split.
  { apply (clean_subseteq _ (pa ++ ".jpg.webp"));
      [apply ensure_jpg_webp_subseteq|].
    rewrite clean_app, andb_true_r.
    apply (clean_subseteq _ (path parsed));
      [by apply path_after_of_subseteq | by eapply urlparse_path_clean]. }
  split; [apply ensure_jpg_webp_suffix|].
  rewrite contains_public_prefix_marker.
  rewrite (ensure_jpg_webp_no_marker pa Hpam), orb_false_r.
  apply ensure_jpg_webp_files_dir.
  (* the piece after the first marker *)
  pose proof (urlparse_path_no_delimiter _ _ _ Hparse) as [Hf Hq].
  revert Hpa. unfold path_after_of. rewrite Hpath.
  rewrite (split_unfold (marker ++ _)) by done.
  assert (find (marker ++ public_prefix ++ X') marker = Some 0) as ->
    by reflexivity.
  change (drop (0 + length marker) (marker ++ public_prefix ++ X'))
    with (public_prefix ++ X').
  rewrite (split_unfold (public_prefix ++ X')) by done.
  set (R := public_prefix ++ X').
  match goal with
  | |- context [getitem (?a :: ?l) 1] =>
      change (getitem (a :: l) 1) with (getitem l 0); set (L := l)
  end.
  assert (∃ seg, L !! 0 = Some seg
                 ∧ seg `prefix_of` R ∧ contains seg marker = false)
    as (seg & Hseg & Hpre & Hsegm).
  { unfold L. destruct (find R marker) as [i|] eqn:E.
    - exists (take i R). split_and!; [done|apply prefix_take|].
      by apply find_Some_before.
    - exists R. split_and!; [done..|]. by apply find_None. }
  clearbody L.
  assert (getitem L 0 = Return seg) as ->
    by (unfold getitem; by rewrite Hseg).
  rewrite bind_Return.
  assert (∀ c : str, contains (path parsed) c = false →
                     contains seg c = false) as Hsub.
  { intros c Hc. apply (contains_false_prefix seg R); [done|].
    rewrite Hpath in Hc.
    by apply (contains_false_infix marker R []); rewrite app_nil_r. }
  rewrite (split_first_no_sep seg "?") by (done || by apply Hsub).
  rewrite bind_Return.
  rewrite (split_first_no_sep seg "#") by (done || by apply Hsub).
  rewrite bind_Return.
  destruct (startswith seg public_prefix) eqn:Hsp; intros [= <-].
  - apply startswith_prefix in Hsp as [k ->].
    rewrite contains_public_prefix_marker in Hsegm.
    apply orb_false_iff in Hsegm as [Hk _]. exact Hk.
  - (* [seg] is a proper start of [styles/no_compression/public/] *)
    destruct seg as [|c0 [|c1 seg]]; [done..|].
    destruct Hpre as [k Hk]. unfold R in Hk. injection Hk as H0 H1 _.
    subst c0 c1.
    reflexivity.
Qed.

(** C2 (as amended).  First part: a canonical URL is returned unchanged,
    silently, when what stands between the prefix and [.jpg.webp] holds
    no [?], [#], tab, carriage return or line feed, the last segment of the
    URL holds no [;], and the marker does not occur again after the
    prefix.  Second part: for every URL [u] under the canonical prefix
    [normalize_url] returns, silently, a canonical URL [v], and normalising
    [v] returns [v] again when the last segment of [v] holds no [;].  Third
    part, for every input: when [normalize_url] returns [v], normalising
    [v] returns [v] again with the same output, provided that, if [v] is
    under the canonical prefix, its last segment holds no [;] and the
    marker does not occur again after the prefix. *)
Theorem C2_fixed_point_and_idempotence :
  (∀ u rel : str,
     u = canonical_prefix ++ rel ++ ".jpg.webp" →
     clean rel = true →
     (";"%char ∉ basename u) →
     contains (public_prefix ++ rel ++ ".jpg.webp") marker = false →
     canonical u ∧ normalize_url u = ([], Return u))
  ∧ (∀ u X : str,
       u = canonical_prefix ++ X →
       ∃ v, normalize_url u = ([], Return v)
            ∧ canonical v
            ∧ ((";"%char ∉ basename v) →
               normalize_url v = ([], Return v)))
  ∧ (∀ (u v : str) (out : list str),
       normalize_url u = (out, Return v) →
       (∀ rest : str, v = canonical_prefix ++ rest →
          (";"%char ∉ basename v)
          ∧ contains (public_prefix ++ rest) marker = false) →
       normalize_url v = (out, Return v)).
Proof.
  split_and!.
  - intros u rel -> Hc Hsemi Hm. split; [by exists rel|].
    apply normalize_url_canonical_fixed; [|done|done|apply endswith_app].
    by rewrite clean_app, Hc.
  - intros u X ->.
    destruct (normalize_url_under_prefix X) as (rest & E & Hc & Hend & Hm).
    exists (canonical_prefix ++ rest). split_and!; [done| |].
    + apply endswith_suffix in Hend as [rel ->]. by exists rel.
    + intros Hsemi. by apply normalize_url_canonical_fixed.
  - intros u v out Hu Hguard.
    pose proof Hu as Hu'. rewrite normalize_url_stages in Hu'.
    destruct (resolve u) as [abs|e] eqn:Hres; [|done].
    unfold normalize_resolved in Hu'.
    destruct (urlparse abs []) as [parsed|e] eqn:Hparse; [|done].
    destruct (contains (path parsed) marker) eqn:Hmark; cbn [negb] in Hu'.
    + destruct (path_after_of (path parsed)) as [pa|e] eqn:Hpa; [|done].
      rewrite bind_Return in Hu'. injection Hu' as <- <-.
      destruct (Hguard _ eq_refl) as [Hsemi Hm].
      apply normalize_url_canonical_fixed;
        [|done|done|apply ensure_jpg_webp_suffix].
      apply (clean_subseteq _ (pa ++ ".jpg.webp"));
        [apply ensure_jpg_webp_subseteq|].
      rewrite clean_app, andb_true_r.
      apply (clean_subseteq _ (path parsed));
        [by apply path_after_of_subseteq | by eapply urlparse_path_clean].
    + injection Hu' as <- <-.
      by rewrite (normalize_url_resolved u abs Hres).
Qed.

End download_covers.

(** ** Concrete runs *)



(** C2 at a canonical URL with a [;] before its last segment, at a URL
    under the prefix, and at the relative href of the specification. *)
Lemma C2_idempotent_witness :
  (canonical (canonical_prefix ++ "a;b/c" ++ ".jpg.webp")
   ∧ normalize_url accept_bracketed_host
       (canonical_prefix ++ "a;b/c" ++ ".jpg.webp")
     = ([], Return (canonical_prefix ++ "a;b/c" ++ ".jpg.webp")))
  ∧ (∃ v, normalize_url accept_bracketed_host
            (canonical_prefix ++ "2023/06/cover.png?v=1.jpg.webp")
          = ([], Return v)
          ∧ canonical v
          ∧ ((";"%char ∉ basename v) →
             normalize_url accept_bracketed_host v = ([], Return v)))
  ∧ normalize_url accept_bracketed_host cover1_url = ([], Return cover1_url).
Proof.
  pose proof (C2_fixed_point_and_idempotence accept_bracketed_host)
    as (Hfixed & Hunder & Hidem).
  split; [|split].
  - apply (Hfixed _ "a;b/c").
    + reflexivity.
    + vm_compute; reflexivity.
    + apply (bool_decide_unpack _). vm_compute. exact I.
    + vm_compute; reflexivity.
  - apply (Hunder _ "2023/06/cover.png?v=1.jpg.webp"). reflexivity.
  - apply (Hidem "/sites/default/files/2023/06/cover1.png").
    + vm_compute; reflexivity.
    + intros rest Hrest.
      change cover1_url
        with (canonical_prefix ++ "2023/06/cover1.jpg.webp") in Hrest.
      apply app_inv_head in Hrest as <-. split.
      * apply (bool_decide_unpack _). vm_compute. exact I.
      * vm_compute; reflexivity.
Defined.

(** C2 as stated fails on canonical URLs.  The first part: one in which the
    marker occurs again loses what follows the second marker, and one with
    a [?] loses what follows the [?].  The second part: a canonical URL
    with a second marker after a segment that holds a [;] is normalised to
    a URL whose last segment holds the [;], and normalising that URL cuts
    it at the [;].  For an input that is not canonical, a result in which
    the marker occurs again is not a fixed point either. *)
Lemma C2_canonical_not_fixed :
  canonical ("https://gameinformer.com/sites/default/files/styles/no_compression/public/backup/sites/default/files/cover.jpg.webp" : str)
  ∧ normalize_url accept_bracketed_host
      "https://gameinformer.com/sites/default/files/styles/no_compression/public/backup/sites/default/files/cover.jpg.webp"
    = ([], Return ("https://gameinformer.com/sites/default/files/styles/no_compression/public/backup.jpg.webp" : str))
  ∧ ("https://gameinformer.com/sites/default/files/styles/no_compression/public/backup.jpg.webp" : str)
    ≠ "https://gameinformer.com/sites/default/files/styles/no_compression/public/backup/sites/default/files/cover.jpg.webp"
  ∧ canonical ("https://gameinformer.com/sites/default/files/styles/no_compression/public/2023/06/cover.png?v=1.jpg.webp" : str)
  ∧ normalize_url accept_bracketed_host
      "https://gameinformer.com/sites/default/files/styles/no_compression/public/2023/06/cover.png?v=1.jpg.webp"
    = ([], Return ("https://gameinformer.com/sites/default/files/styles/no_compression/public/2023/06/cover.jpg.webp" : str))
  ∧ ("https://gameinformer.com/sites/default/files/styles/no_compression/public/2023/06/cover.jpg.webp" : str)
    ≠ "https://gameinformer.com/sites/default/files/styles/no_compression/public/2023/06/cover.png?v=1.jpg.webp"
  ∧ canonical ("https://gameinformer.com/sites/default/files/styles/no_compression/public/a;b/sites/default/files/c.jpg.webp" : str)
  ∧ normalize_url accept_bracketed_host
      "https://gameinformer.com/sites/default/files/styles/no_compression/public/a;b/sites/default/files/c.jpg.webp"
    = ([], Return ("https://gameinformer.com/sites/default/files/styles/no_compression/public/a;b.jpg.webp" : str))
  ∧ normalize_url accept_bracketed_host
      "https://gameinformer.com/sites/default/files/styles/no_compression/public/a;b.jpg.webp"
    = ([], Return ("https://gameinformer.com/sites/default/files/styles/no_compression/public/a.jpg.webp" : str))
  ∧ ("https://gameinformer.com/sites/default/files/styles/no_compression/public/a.jpg.webp" : str)
    ≠ "https://gameinformer.com/sites/default/files/styles/no_compression/public/a;b.jpg.webp"
  ∧ normalize_url accept_bracketed_host
      "https://gameinformer.com/sites/default/files/sites/default/files/styles/no_compression/public/x.png"
    = ([], Return ("https://gameinformer.com/sites/default/files/styles/no_compression/public/sites/default/files/styles/no_compression/public/x.jpg.webp" : str))
  ∧ normalize_url accept_bracketed_host
      "https://gameinformer.com/sites/default/files/styles/no_compression/public/sites/default/files/styles/no_compression/public/x.jpg.webp"
    = ([], Return ("https://gameinformer.com/sites/default/files/styles/no_compression/public/styles/no_compression/public.jpg.webp" : str)).
Proof.
  split_and!; try (vm_compute; reflexivity); try discriminate.
  - by exists ("backup/sites/default/files/cover" : str).
  - by exists ("2023/06/cover.png?v=1" : str).
  - by exists ("a;b/sites/default/files/c" : str).
Qed.



Lemma extension_examples :
  normalize_url accept_bracketed_host "/sites/default/files/foo.png"
  = ([], Return ("https://gameinformer.com/sites/default/files/styles/no_compression/public/foo.jpg.webp" : str))
  ∧ normalize_url accept_bracketed_host "/sites/default/files/foo.Png"
    = ([], Return ("https://gameinformer.com/sites/default/files/styles/no_compression/public/foo.jpg.webp" : str))
  ∧ normalize_url accept_bracketed_host "/sites/default/files/foo.JPEG"
    = ([], Return ("https://gameinformer.com/sites/default/files/styles/no_compression/public/foo.jpg.webp" : str))
  ∧ normalize_url accept_bracketed_host "/sites/default/files/foo.Jpg"
    = ([], Return ("https://gameinformer.com/sites/default/files/styles/no_compression/public/foo.jpg.webp" : str)).
Proof. split_and!; vm_compute; reflexivity. Qed.

(** C5 at the absolute href of the specification. *)
Lemma C5_pass_through_witness :
  normalize_url accept_bracketed_host "https://other.example.com/img.jpg"
  = (["Warning: URL doesn't contain /sites/default/files/: "
        ++ "https://other.example.com/img.jpg"],
     Return ("https://other.example.com/img.jpg" : str))
  ∧ (startswith "https://other.example.com/img.jpg" "http" = true →
     ("https://other.example.com/img.jpg" : str)
     = "https://other.example.com/img.jpg").
Proof.
  apply (C5_no_marker_pass_through accept_bracketed_host
           "https://other.example.com/img.jpg"
           "https://other.example.com/img.jpg"
           (mkParseResult "https" "other.example.com" "/img.jpg" [] [] []));
    vm_compute; reflexivity.
Defined.

(** C5 as stated fails: a URL with an unbalanced bracket in its host holds
    no marker and makes [normalize_url] raise [ValueError]; and for a
    relative URL without marker the value returned is the resolved URL, not
    the raw one. *)
Lemma C5_raises_or_resolves :
  contains ("http://[" : str) marker = false
  ∧ normalize_url accept_bracketed_host "http://["
    = ([], Raise (Exn ValueError "Invalid IPv6 URL"))
  ∧ contains ("img.jpg" : str) marker = false
  ∧ normalize_url accept_bracketed_host "img.jpg"
    = (["Warning: URL doesn't contain /sites/default/files/: https://gameinformer.com/img.jpg" : str],
       Return ("https://gameinformer.com/img.jpg" : str))
  ∧ ("https://gameinformer.com/img.jpg" : str) ≠ "img.jpg".
Proof. split_and!; try (vm_compute; reflexivity). discriminate. Qed.



(** C7 at the cover that is already in the output directory. *)
Lemma C7_skip_existing_witness :
  ∃ w',
    download_image accept_bracketed_host cover1_url "output"
      world_with_cover1
    = (Return true, w')
    ∧ requested w' = requested world_with_cover1
    ∧ fs w' = fs world_with_cover1
    ∧ stdout w' = stdout world_with_cover1 ++ [skip_line "cover1.jpg.webp"].
Proof.
  apply (C7_skip_existing accept_bracketed_host cover1_url "output"
           (mkParseResult "https" "gameinformer.com"
              "/sites/default/files/styles/no_compression/public/2023/06/cover1.jpg.webp"
              [] [] [])
           world_with_cover1).
  - vm_compute; reflexivity.
  - vm_compute; reflexivity.
  - exists (File "RIFF"). vm_compute; reflexivity.
Defined.

(** The loop of [main] on the same cover: one skip, no request. *)
Lemma skip_in_loop_example :
  ∃ w',
    download_loop accept_bracketed_host "output" 1 1 [cover1_url] (0, 0)
      world_with_cover1
    = (Return (0, 1), w')
    ∧ requested w' = []
    ∧ fs w' = fs world_with_cover1.
Proof. eexists. split; [vm_compute; reflexivity | done]. Qed.

(** C8 at a cover that is not in the output directory, with the network
    down. *)
Lemma C8_failure_is_soft_witness :
  download_image accept_bracketed_host cover1_url "output"
    (printed (progress_line 1 1 cover1_url) offline_world)
  = (Return false,
     printed
       (error_line "cover1.jpg.webp" (Exn RequestException "Connection refused"))
       (set_requested (λ l, l ++ [cover1_url])
          (printed ("  Downloading " ++ "cover1.jpg.webp" ++ "...")
             (printed (progress_line 1 1 cover1_url) offline_world))))
  ∧ download_step accept_bracketed_host "output" 1 1 cover1_url (0, 0)
      offline_world
    = (Return (0, 0),
       printed []
         (printed
            (error_line "cover1.jpg.webp"
               (Exn RequestException "Connection refused"))
            (set_requested (λ l, l ++ [cover1_url])
               (printed ("  Downloading " ++ "cover1.jpg.webp" ++ "...")
                  (printed (progress_line 1 1 cover1_url) offline_world)))))
  ∧ download_loop accept_bracketed_host "output" 1 1 [cover1_url] (0, 0)
      offline_world
    = download_loop accept_bracketed_host "output" 1 2 [] (0, 0)
        (printed []
           (printed
              (error_line "cover1.jpg.webp"
                 (Exn RequestException "Connection refused"))
              (set_requested (λ l, l ++ [cover1_url])
                 (printed ("  Downloading " ++ "cover1.jpg.webp" ++ "...")
                    (printed (progress_line 1 1 cover1_url) offline_world))))).
Proof.
  apply (C8_failure_is_soft accept_bracketed_host cover1_url "output"
           (mkParseResult "https" "gameinformer.com"
              "/sites/default/files/styles/no_compression/public/2023/06/cover1.jpg.webp"
              [] [] [])
           "cover1.jpg.webp" (Exn RequestException "Connection refused")
           1 1 [] 0 0 offline_world).
  - vm_compute; reflexivity.
  - vm_compute; reflexivity.
  - vm_compute; reflexivity.
  - vm_compute; reflexivity.
  - apply fetch_and_write_request_fails. reflexivity.
  - reflexivity.
Defined.

(** C8 as stated fails: a failed download is not counted.  After the loop
    has run over one URL whose download fails, both counters are zero, as
    they are after a loop over no URL at all, and the summary reports no
    download and no skip, although the request was made. *)
Lemma C8_failure_not_counted :
  (download_loop accept_bracketed_host "output" 1 1 [cover1_url] (0, 0)
     offline_world).1
  = Return (0, 0)
  ∧ (download_loop accept_bracketed_host "output" 0 1 [] (0, 0)
       offline_world).1
    = Return (0, 0)
  ∧ requested
      (download_all accept_bracketed_host [cover1_url] offline_world).2
    = [cover1_url]
  ∧ last (stdout
            (download_all accept_bracketed_host [cover1_url] offline_world).2)
    = Some (["010"%char]
              ++ "Done! Downloaded 0 new images, skipped 0 existing images.").
Proof. split_and!; vm_compute; reflexivity. Qed.

(** ** Concrete runs of the rest of the script *)

(** X1 at a cover with a query and a fragment. *)
Lemma X1_query_fragment_witness :
  contains (path (mkParseResult "https" "gameinformer.com"
                    "/sites/default/files/2023/06/cover1.png" []
                    "itok=abc" "top")) "?" = false
  ∧ contains (path (mkParseResult "https" "gameinformer.com"
                      "/sites/default/files/2023/06/cover1.png" []
                      "itok=abc" "top")) "#" = false
  ∧ getitem (split ("2023/06/cover1.png" : str) "?") 0
    = Return ("2023/06/cover1.png" : str)
  ∧ getitem (split ("2023/06/cover1.png" : str) "#") 0
    = Return ("2023/06/cover1.png" : str).
Proof.
  apply (X1_query_fragment_removal_is_identity accept_bracketed_host
           "https://gameinformer.com/sites/default/files/2023/06/cover1.png?itok=abc#top"
           []); vm_compute; reflexivity.
Defined.

(** X2 at an address with an open bracket. *)
Lemma X2_raises_witness :
  ([] : list str) = []
  ∧ (resolve accept_bracketed_host "http://["
     = Raise (Exn ValueError "Invalid IPv6 URL")
     ∨ ∃ abs, resolve accept_bracketed_host "http://[" = Return abs
              ∧ urlparse accept_bracketed_host abs []
                = Raise (Exn ValueError "Invalid IPv6 URL")).
Proof.
  apply (X2_normalize_url_raises_from_urllib_only accept_bracketed_host
           "http://[" [] (Exn ValueError "Invalid IPv6 URL")).
  vm_compute; reflexivity.
Defined.

(** X3 at the relative href of the specification. *)
Lemma X3_normalized_urls_parse_witness :
  ∃ parsed filename,
    urlparse accept_bracketed_host cover1_url [] = Return parsed
    ∧ filename_of cover1_url parsed = Return filename.
Proof.
  apply (X3_normalized_urls_parse accept_bracketed_host
           "/sites/default/files/2023/06/cover1.png" cover1_url []).
  vm_compute; reflexivity.
Defined.

(** X4 at a canonical URL followed by a query. *)
Lemma X4_query_dropped_witness :
  normalize_url accept_bracketed_host
    (canonical_prefix ++ ("2023/06/cover1" ++ ".jpg.webp") ++ "?" ++ "itok=abc")
  = ([], Return (canonical_prefix ++ "2023/06/cover1" ++ ".jpg.webp")).
Proof.
  apply (X4_query_and_fragment_dropped accept_bracketed_host
           "2023/06/cover1" "?" "itok=abc").
  - vm_compute; reflexivity.
  - vm_compute; reflexivity.
  - left; reflexivity.
Defined.

(** X5 at the download of one cover. *)
Lemma X5_download_image_effects_witness :
  world_grows online_world (cover1_written cover1_url online_world)
  ∧ (length (requested (cover1_written cover1_url online_world))
     ≤ length (requested online_world) + 1)%nat
  ∧ (fs (cover1_written cover1_url online_world) = fs online_world
     ∨ ∃ f d, ("/"%char ∉ f)
              ∧ fs online_world !! os_path_join "output" f = None
              ∧ fs (cover1_written cover1_url online_world)
                = <[os_path_join "output" f := File d]> (fs online_world)).
Proof.
  apply (X5_download_image_effects accept_bracketed_host cover1_url "output"
           online_world (Return true)).
  vm_compute; reflexivity.
Defined.

(** X6 at the download of one cover, then a second call. *)
Lemma X6_download_then_skip_witness :
  ∃ w',
    download_image accept_bracketed_host cover1_url "output" online_world
    = (Return true, w')
    ∧ requested w' = requested online_world ++ [cover1_url]
    ∧ fs w' = <[os_path_join "output" "cover1.jpg.webp"
                := File (content (mkResponse 200 "OK" cover1_url "RIFF"))]>
                (fs online_world)
    ∧ stdout w'
      = stdout online_world
          ++ [("  Downloading " ++ "cover1.jpg.webp" ++ "..." : str);
              ("  ✓ Downloaded " ++ "cover1.jpg.webp" : str)]
    ∧ download_image accept_bracketed_host cover1_url "output" w'
      = (Return true, printed (skip_line "cover1.jpg.webp") w').
Proof.
  apply (X6_download_then_skip accept_bracketed_host cover1_url "output"
           cover1_parsed "cover1.jpg.webp" online_world
           (mkResponse 200 "OK" cover1_url "RIFF"));
    vm_compute; reflexivity.
Defined.

(** X7 at a cover that the server does not have. *)
Lemma X7_http_error_status_witness :
  ∃ w',
    download_image accept_bracketed_host cover1_url "output" not_found_world
    = (Return false, w')
    ∧ requested w' = requested not_found_world ++ [cover1_url]
    ∧ fs w' = fs not_found_world
    ∧ stdout w'
      = stdout not_found_world
          ++ [("  Downloading " ++ "cover1.jpg.webp" ++ "..." : str);
              error_line "cover1.jpg.webp"
                (Exn HTTPError
                   ("404" ++ " Client Error: " ++ "Not Found" ++ " for url: "
                      ++ cover1_url))].
Proof.
  apply (X7_http_error_status accept_bracketed_host cover1_url "output"
           cover1_parsed "cover1.jpg.webp" not_found_world
           (mkResponse 404 "Not Found" cover1_url "<html>"));
    vm_compute; reflexivity.
Defined.

(** X8 at a full disk. *)
Lemma X8_failed_write_witness :
  ∃ w',
    download_image accept_bracketed_host cover1_url "output" disk_full_world
    = (Return false, w')
    ∧ is_Some (fs w' !! os_path_join "output" "cover1.jpg.webp")
    ∧ download_image accept_bracketed_host cover1_url "output" w'
      = (Return true, printed (skip_line "cover1.jpg.webp") w').
Proof.
  apply (X8_failed_write_is_never_repaired accept_bracketed_host cover1_url
           "output" cover1_parsed "cover1.jpg.webp" disk_full_world
           (mkResponse 200 "OK" cover1_url "RIFF")
           (Exn OSError "[Errno 28] No space left on device"));
    vm_compute; reflexivity.
Defined.

(** X9 at two covers with the same file name: one download, one skip. *)
Lemma X9_loop_accounting_witness :
  world_grows online_world
    (printed (skip_line "cover1.jpg.webp")
       (printed (progress_line 2 2 cover1_other_url)
          (printed []
             (cover1_written cover1_url
                (printed (progress_line 2 1 cover1_url) online_world)))))
  ∧ (length (requested
       (printed (skip_line "cover1.jpg.webp")
          (printed (progress_line 2 2 cover1_other_url)
             (printed []
                (cover1_written cover1_url
                   (printed (progress_line 2 1 cover1_url) online_world))))))
     ≤ length (requested online_world)
       + length [cover1_url; cover1_other_url])%nat
  ∧ ∀ s' k', Return (1, 1) = Return (s', k') →
      (0 ≤ s')%nat ∧ (0 ≤ k')%nat
      ∧ (s' + k' ≤ 0 + 0 + length [cover1_url; cover1_other_url])%nat
      ∧ (length (requested
           (printed (skip_line "cover1.jpg.webp")
              (printed (progress_line 2 2 cover1_other_url)
                 (printed []
                    (cover1_written cover1_url
                       (printed (progress_line 2 1 cover1_url)
                          online_world)))))) + k'
         ≤ length (requested online_world) + 0
           + length [cover1_url; cover1_other_url])%nat.
Proof.
  apply (X9_loop_accounting accept_bracketed_host "output" 2
           [cover1_url; cover1_other_url] 1 0 0 online_world
           (Return (1, 1))).
  vm_compute; reflexivity.
Defined.

(** X10 at a request that the user interrupts: the second cover is not
    reached. *)
Lemma X10_interrupt_witness :
  download_image accept_bracketed_host cover1_url "output"
    (printed (progress_line 2 1 cover1_url) interrupted_world)
  = (Raise (Exn KeyboardInterrupt ""),
     after_request cover1_url "cover1.jpg.webp"
       (printed (progress_line 2 1 cover1_url) interrupted_world))
  ∧ download_loop accept_bracketed_host "output" 2 1
      (cover1_url :: [cover1_other_url]) (0, 0) interrupted_world
    = (Raise (Exn KeyboardInterrupt ""),
       after_request cover1_url "cover1.jpg.webp"
         (printed (progress_line 2 1 cover1_url) interrupted_world)).
Proof.
  apply (X10_interrupt_ends_the_loop accept_bracketed_host cover1_url "output"
           cover1_parsed "cover1.jpg.webp" (Exn KeyboardInterrupt "") 2 1
           [cover1_other_url] 0 0 interrupted_world);
    vm_compute; reflexivity.
Defined.

(** X11 at two covers with the same file name. *)
Lemma X11_same_file_name_witness :
  download_step accept_bracketed_host "output" 2 2 cover1_other_url (1, 0)
    (printed []
       (cover1_written cover1_url
          (printed (progress_line 2 1 cover1_url) online_world)))
  = (Return (1, 0 + 1),
     printed (skip_line (basename (path cover1_parsed)))
       (printed (progress_line 2 2 cover1_other_url)
          (printed []
             (cover1_written cover1_url
                (printed (progress_line 2 1 cover1_url) online_world))))).
Proof.
  apply (X11_same_file_name_is_skipped accept_bracketed_host "output" 2 1 2
           cover1_url cover1_other_url cover1_parsed cover1_other_parsed
           0 0 1 0 online_world
           (printed []
              (cover1_written cover1_url
                 (printed (progress_line 2 1 cover1_url) online_world)))).
  - discriminate.
  - vm_compute; reflexivity.
  - vm_compute; reflexivity.
  - vm_compute; reflexivity.
  - vm_compute; reflexivity.
  - vm_compute; reflexivity.
  - vm_compute; reflexivity.
  - unfold world_grows. split_and!; [by intros|done..].
Defined.

(** X12 at a run over one cover, then a second run. *)
Lemma X12_second_run_witness :
  ∃ w'',
    download_loop accept_bracketed_host "output" 1 1 [cover1_url] (0, 0)
      (printed []
         (cover1_written cover1_url
            (printed (progress_line 1 1 cover1_url) online_world)))
    = (Return (0, 0 + length [cover1_url]), w'')
    ∧ requested w''
      = requested
          (printed []
             (cover1_written cover1_url
                (printed (progress_line 1 1 cover1_url) online_world)))
    ∧ fs w''
      = fs (printed []
              (cover1_written cover1_url
                 (printed (progress_line 1 1 cover1_url) online_world))).
Proof.
  apply (X12_second_run_skips_everything accept_bracketed_host "output" 1 1
           [cover1_url] 1 1 0 0 1 0 0 0 online_world).
  - discriminate.
  - vm_compute; reflexivity.
  - repeat constructor.
  - vm_compute; reflexivity.
  - reflexivity.
Defined.

(** X14 at three raw URLs, two of which name the same cover and one of
    which lies outside the uploads of the site. *)
Lemma X14_url_collection_witness :
  length [cover1_url; cover1_url; ("https://other.example.com/img.jpg" : str)]
  = length [("/sites/default/files/2023/06/cover1.png" : str); cover1_url;
            ("https://other.example.com/img.jpg" : str)]
  ∧ (length [("Warning: URL doesn't contain /sites/default/files/: "
                ++ "https://other.example.com/img.jpg" : str)]
     ≤ length [("/sites/default/files/2023/06/cover1.png" : str); cover1_url;
               ("https://other.example.com/img.jpg" : str)])%nat
  ∧ NoDup (unique [cover1_url; cover1_url;
                   ("https://other.example.com/img.jpg" : str)])
  ∧ ∀ v, v ∈ unique [cover1_url; cover1_url;
                     ("https://other.example.com/img.jpg" : str)]
         ↔ ∃ u o,
             u ∈ [("/sites/default/files/2023/06/cover1.png" : str);
                  cover1_url; ("https://other.example.com/img.jpg" : str)]
             ∧ normalize_url accept_bracketed_host u = (o, Return v).
Proof.
  apply (X14_url_collection accept_bracketed_host
           [("/sites/default/files/2023/06/cover1.png" : str); cover1_url;
            ("https://other.example.com/img.jpg" : str)]).
  vm_compute; reflexivity.
Defined.

(** X15 at a list whose second URL has an open bracket. *)
Lemma X15_first_error_witness :
  ∃ before u after,
    [cover1_url; ("http://[" : str); ("/sites/default/files/x.png" : str)]
    = before ++ u :: after
    ∧ (normalize_url accept_bracketed_host u).2
      = Raise (Exn ValueError "Invalid IPv6 URL")
    ∧ Forall (λ u', ∃ v, (normalize_url accept_bracketed_host u').2 = Return v)
             before
    ∧ ([] : list str)
      = (normalize_all accept_bracketed_host before).1
          ++ (normalize_url accept_bracketed_host u).1.
Proof.
  apply (X15_normalisation_stops_at_first_error accept_bracketed_host
           [cover1_url; ("http://[" : str);
            ("/sites/default/files/x.png" : str)]).
  vm_compute; reflexivity.
Defined.

(** X16 at a cover with the extension gif. *)
Lemma X16_other_extension_witness :
  normalize_url accept_bracketed_host "/sites/default/files/2023/06/cover1.gif"
  = ([], Return (canonical_prefix ++ "2023/06/cover1.gif" ++ ".jpg.webp")).
Proof.
  apply (X16_other_extension_is_kept accept_bracketed_host
           "/sites/default/files/2023/06/cover1.gif"
           "https://gameinformer.com/sites/default/files/2023/06/cover1.gif"
           (mkParseResult "https" "gameinformer.com"
              "/sites/default/files/2023/06/cover1.gif" [] [] [])).
  - vm_compute; reflexivity.
  - vm_compute; reflexivity.
  - vm_compute; reflexivity.
  - vm_compute; reflexivity.
  - repeat constructor.
Defined.

(** X17 at a URL that ends in a slash: the file name is empty, the joined
    path is the output directory with a slash, and [True] is returned
    though there is no file. *)
Lemma X17_true_means_path_witness :
  ∃ parsed filename,
    urlparse accept_bracketed_host "https://gameinformer.com/covers/" []
    = Return parsed
    ∧ filename_of "https://gameinformer.com/covers/" parsed = Return filename
    ∧ ((∃ n, fs output_dir_world !! os_path_join "output" filename = Some n
             ∧ fs (printed (skip_line []) output_dir_world)
               = fs output_dir_world
             ∧ requested (printed (skip_line []) output_dir_world)
               = requested output_dir_world)
       ∨ (fs output_dir_world !! os_path_join "output" filename = None
          ∧ ∃ r, net output_dir_world (requested output_dir_world)
                   "https://gameinformer.com/covers/" = Return r
                 ∧ requested (printed (skip_line []) output_dir_world)
                   = requested output_dir_world
                       ++ ["https://gameinformer.com/covers/" : str]
                 ∧ fs (printed (skip_line []) output_dir_world)
                   = <[os_path_join "output" filename := File (content r)]>
                       (fs output_dir_world))).
Proof.
  apply (X17_true_means_path_exists accept_bracketed_host
           "https://gameinformer.com/covers/" "output" output_dir_world).
  vm_compute; reflexivity.
Defined.

(** The same call, spelled out: the name is empty, the path that is found
    is a directory. *)
Lemma true_without_file_example :
  filename_of "https://gameinformer.com/covers/"
    (mkParseResult "https" "gameinformer.com" "/covers/" [] [] [])
  = Return []
  ∧ os_path_join "output" [] = "output/"
  ∧ fs output_dir_world !! ("output/" : str) = Some Dir
  ∧ download_image accept_bracketed_host "https://gameinformer.com/covers/"
      "output" output_dir_world
    = (Return true, printed (skip_line []) output_dir_world).
Proof. split_and!; vm_compute; reflexivity. Qed.

(** X18 at a run over one cover. *)
Lemma X18_summary_witness :
  ∃ (s k : nat) (lines : list str),
    stdout
      (printed
         (["010"%char] ++ "Done! Downloaded 1 new images, skipped 0 existing images.")
         (printed []
            (cover1_written cover1_url
               (printed (progress_line 1 1 cover1_url)
                  (printed
                     (["010"%char] ++ "Step 3: Downloading images to output...")
                     online_world)))))
    = stdout online_world
        ++ [(["010"%char] ++ "Step 3: Downloading images to " ++ "output"
               ++ "..." : str)]
        ++ lines
        ++ [(["010"%char] ++ "Done! Downloaded " ++ str_of_nat s
               ++ " new images, skipped " ++ str_of_nat k
               ++ " existing images." : str)]
    ∧ (s + k ≤ length [cover1_url])%nat
    ∧ ∀ p n,
        fs online_world !! p = Some n →
        fs (printed
              (["010"%char] ++ "Done! Downloaded 1 new images, skipped 0 existing images.")
              (printed []
                 (cover1_written cover1_url
                    (printed (progress_line 1 1 cover1_url)
                       (printed
                          (["010"%char] ++ "Step 3: Downloading images to output...")
                          online_world))))) !! p = Some n.
Proof.
  apply (X18_summary_of_a_run accept_bracketed_host [cover1_url] online_world).
  vm_compute; reflexivity.
Defined.
